(** * url-utils.js: tenant-aware URL generation

    A shallow embedding of
    [components/centraldashboard/public/components/url-utils.js]
    and the properties of its hostname parser, service URL generator and
    placeholder substitution.

    JavaScript strings are modelled by Rocq [string]s: sequences of 8-bit
    code units.  Every literal of the module is ASCII.

    The values are those of JSON data and of omitted arguments:
    [undefined], [null], booleans, numbers, strings, and references to
    objects and arrays of a heap.  [console.warn] is modelled by the list of
    the texts written, an exception by an abrupt completion, and
    [window.location.hostname] by a component of an explicit [Window]. *)

From Stdlib Require Import ZArith Ascii String List Bool Lia.
From stdpp Require Import base option list gmap strings pretty.

Local Open Scope Z_scope.

#[local] Arguments String.append !_ _ / : simpl nomatch.

(** ** JavaScript values *)

Module JS.

(** Primitive values.  [JsNumber] carries the integral numbers, which is
    enough to have a falsy number ([0]) and truthy ones. *)
Inductive JsPrim :=
| JsUndefined
| JsNull
| JsBool (b : bool)
| JsNumber (n : Z)
| JsString (s : string).

Definition loc := positive.

(** A value is a primitive, a reference to an object or array of the heap,
    or a built-in function object.  The only function that arises is
    [String.prototype.link], when [link] is read off a string. *)
Inductive JsValue :=
| JsP (p : JsPrim)
| JsRef (l : loc)
| JsFunction (name : string).

Coercion JsP : JsPrim >-> JsValue.

#[global] Instance JsPrim_eq_dec : EqDecision JsPrim.
Proof. solve_decision. Defined.

#[global] Instance JsValue_eq_dec : EqDecision JsValue.
Proof. solve_decision. Defined.

(** Abrupt completion: the only exception this module can raise is the
    [TypeError] of calling a method that the receiver does not have, or of
    reading a property of [null] or [undefined]. *)
Inductive JsError := TypeError (msg : string).

Inductive Completion (A : Type) :=
| Normal (a : A)
| Throw (e : JsError).

Arguments Normal {A} a.
Arguments Throw {A} e.

(** [!v] is [negb (ToBoolean v)]. *)
Definition ToBooleanPrim (p : JsPrim) : bool :=
  match p with
  | JsUndefined | JsNull => false
  | JsBool b => b
  | JsNumber n => negb (n =? 0)
  | JsString s => negb (String.eqb s "")
  end.

Definition ToBoolean (v : JsValue) : bool :=
  match v with
  | JsP p => ToBooleanPrim p
  | JsRef _ | JsFunction _ => true
  end.

Definition typeof (v : JsValue) : string :=
  match v with
  | JsP JsUndefined => "undefined"
  | JsP JsNull => "object"
  | JsP (JsBool _) => "boolean"
  | JsP (JsNumber _) => "number"
  | JsP (JsString _) => "string"
  | JsRef _ => "object"
  | JsFunction _ => "function"
  end.

(** [ToString] on primitives, as used by template literals and by the
    replacement argument of [String.prototype.replace].  An integer prints as
    its decimal numeral (JavaScript switches to exponent notation from 10^21
    on; no property below depends on the numeral). *)
Definition ToString (p : JsPrim) : string :=
  match p with
  | JsUndefined => "undefined"
  | JsNull => "null"
  | JsBool true => "true"
  | JsBool false => "false"
  | JsNumber n => pretty n
  | JsString s => s
  end.

(** [a || b] on values. *)
Definition or_else (a b : JsPrim) : JsPrim :=
  if ToBooleanPrim a then a else b.

(** *** String.prototype *)

(** [s.split(sep)] for a one-character separator. *)
Fixpoint split (sep : ascii) (s : string) : list string :=
  match s with
  | EmptyString => [EmptyString]
  | String c s' =>
      if Ascii.eqb c sep then EmptyString :: split sep s'
      else match split sep s' with
           | p :: ps => String c p :: ps
           | [] => [String c EmptyString]
           end
  end.

(** [parts.join(sep)]. *)
Definition join (sep : string) (parts : list string) : string :=
  String.concat sep parts.

(** [parts.slice(1)]. *)
Definition slice1 {A} (parts : list A) : list A := tail parts.

(** [s.indexOf(sub)]: the least index at which [sub] occurs in [s], or -1. *)
Fixpoint indexOf (s sub : string) : Z :=
  if String.prefix sub s then 0
  else match s with
       | EmptyString => -1
       | String _ s' =>
           let i := indexOf s' sub in
           if i =? -1 then -1 else i + 1
       end.

(** [s.substring(start, end)]: both indices are clamped to [0, length] and
    swapped when out of order. *)
Definition substring (s : string) (start end_ : Z) : string :=
  let len := Z.of_nat (String.length s) in
  let clamp i := Z.min (Z.max i 0) len in
  let a := clamp start in
  let b := clamp end_ in
  let lo := Z.min a b in
  let hi := Z.max a b in
  String.substring (Z.to_nat lo) (Z.to_nat (hi - lo)) s.

(** [s.substring(start)]. *)
Definition substring_from (s : string) (start : Z) : string :=
  substring s start (Z.of_nat (String.length s)).

(** [s.toUpperCase()].  The letters a-z are mapped to A-Z.  Code units
    outside ASCII are left in place: their upper-case forms are again outside
    ASCII (or 'SS' for U+00DF), so they make no difference to a comparison
    with the keys of [SERVICE_CONFIG]. *)
Definition is_lower (c : ascii) : bool :=
  let n := N_of_ascii c in ((97 <=? n) && (n <=? 122))%N.

Definition upcase (c : ascii) : ascii :=
  if is_lower c then ascii_of_N (N_of_ascii c - 32) else c.

Fixpoint toUpperCase (s : string) : string :=
  match s with
  | EmptyString => EmptyString
  | String c s' => String (upcase c) (toUpperCase s')
  end.

(** [GetSubstitution] of ECMAScript for a pattern without capture groups:
    in the replacement text, [$$] stands for a dollar sign, [$&] for the
    matched text, [$`] for the text before the match and [$'] for the text
    after it; any other dollar sign stands for itself. *)
Fixpoint GetSubstitution (matched before after template : string) : string :=
  match template with
  | EmptyString => EmptyString
  | String "$" rest =>
      match rest with
      | String "$" rest' =>
          String "$" (GetSubstitution matched before after rest')
      | String "&" rest' =>
          matched +:+ GetSubstitution matched before after rest'
      | String "`" rest' =>
          before +:+ GetSubstitution matched before after rest'
      | String "'" rest' =>
          after +:+ GetSubstitution matched before after rest'
      | _ => String "$" (GetSubstitution matched before after rest)
      end
  | String c rest => String c (GetSubstitution matched before after rest)
  end.

(** [s.replace(/token/g, replacement)] where the regular expression matches
    the non-empty literal text [token]: the matches are found from left to
    right without overlap, and each is replaced by the expansion of
    [replacement].  [before] is the part of the subject already scanned and
    [skip] counts the code units of the current match still to be passed. *)
Fixpoint replace_go (token replacement before : string) (skip : nat)
    (rest : string) : string :=
  match rest with
  | EmptyString => EmptyString
  | String c rest' =>
      let before' := before +:+ String c EmptyString in
      match skip with
      | S k => replace_go token replacement before' k rest'
      | O =>
          if String.prefix token rest
          then GetSubstitution token before
                 (substring_from rest (Z.of_nat (String.length token)))
                 replacement
               +:+ replace_go token replacement before'
                     (String.length token - 1) rest'
          else String c (replace_go token replacement before' 0 rest')
      end
  end.

Definition replace_global (token replacement s : string) : string :=
  replace_go token replacement EmptyString 0 s.

End JS.

Import JS.

(** ** The module *)

(** Default domain configuration. *)
Definition DEFAULT_DOMAIN : string := "cloud-tmp.physicsx.ai".

(** Extract tenant name from hostname. *)
Definition extractTenantFromHostname (hostname : JsValue) : JsPrim :=
  if negb (ToBoolean hostname) || negb (String.eqb (typeof hostname) "string")
  then JsNull
  else match hostname with
       | JsP (JsString hostname) =>
           let parts := split "." hostname in
           if (Z.of_nat (length parts) <? 2) then JsNull
           else
             let tenant := nth 0 parts EmptyString in
             let domain := join "." (slice1 parts) in
             if negb (ToBoolean (JsString tenant))
                || negb (ToBoolean (JsString domain))
             then JsNull
             else
               let kubeflowIndex := indexOf tenant "-kubeflow" in
               let tenant :=
                 if negb (kubeflowIndex =? -1)
                 then substring tenant 0 kubeflowIndex
                 else tenant in
               JsString tenant
       | _ => JsNull
       end.

(** Get the current domain from hostname. *)
Definition extractDomainFromHostname (hostname : JsValue) : string :=
  if negb (ToBoolean hostname) || negb (String.eqb (typeof hostname) "string")
  then DEFAULT_DOMAIN
  else match hostname with
       | JsP (JsString hostname) =>
           let dotIndex := indexOf hostname "." in
           if dotIndex =? -1 then DEFAULT_DOMAIN
           else substring_from hostname (dotIndex + 1)
       | _ => DEFAULT_DOMAIN
       end.

(** Configuration for external services. *)
Record ServiceDescriptor := {
  name : string;
  format : string;
  path : string;
}.

Definition SERVICE_CONFIG : list (string * ServiceDescriptor) :=
  [ ("MLFLOW",
     {| name := "mlflow"; format := "tenant-prefix"; path := "/" |});
    ("OPTIMIZER",
     {| name := "optimizer"; format := "tenant-subdomain";
        path := "/platform-app/app/optimizer" |});
    ("VAULT",
     {| name := "vault"; format := "tenant-subdomain";
        path := "/vault-filebrowser/files/" |});
    ("SIM_WORKBENCH",
     {| name := "sim-workbench"; format := "tenant-subdomain";
        path := "/simlab-react-ui/projects" |});
    ("PLATFORM_DOCS",
     {| name := "platform-docs"; format := "tenant-subdomain";
        path := "/documentation/" |});
    ("AI_WORKBENCH_DOCS",
     {| name := "ai-workbench"; format := "tenant-subdomain";
        path := "/platform-documentation/ai_workbench/index.html" |}) ].

(** [SERVICE_CONFIG] is an ordinary object, so the property read
    [SERVICE_CONFIG[key]] also sees what it inherits from
    [Object.prototype]. *)
Definition Object_prototype_names : list string :=
  [ "constructor"; "hasOwnProperty"; "isPrototypeOf"; "propertyIsEnumerable";
    "toLocaleString"; "toString"; "valueOf"; "__proto__";
    "__defineGetter__"; "__defineSetter__";
    "__lookupGetter__"; "__lookupSetter__" ].

Inductive ConfigProperty :=
| Own (d : ServiceDescriptor)
| Inherited (key : string).

Fixpoint own_property (key : string) (table : list (string * ServiceDescriptor))
    : option ServiceDescriptor :=
  match table with
  | [] => None
  | (k, d) :: table' => if String.eqb key k then Some d else own_property key table'
  end.

(** [SERVICE_CONFIG[key]]; [None] is [undefined]. *)
Definition SERVICE_CONFIG_get (key : string) : option ConfigProperty :=
  match own_property key SERVICE_CONFIG with
  | Some d => Some (Own d)
  | None =>
      if existsb (String.eqb key) Object_prototype_names
      then Some (Inherited key)
      else None
  end.

(** [serviceConfig.format], [undefined] on an inherited member. *)
Definition format_of (serviceConfig : ConfigProperty) : JsPrim :=
  match serviceConfig with
  | Own d => JsString (format d)
  | Inherited _ => JsUndefined
  end.

Definition name_of (serviceConfig : ConfigProperty) : JsPrim :=
  match serviceConfig with
  | Own d => JsString (name d)
  | Inherited _ => JsUndefined
  end.

Definition path_of (serviceConfig : ConfigProperty) : JsPrim :=
  match serviceConfig with
  | Own d => JsString (path d)
  | Inherited _ => JsUndefined
  end.

(** The ambient page: [window.location.hostname]. *)
Record Window := { location_hostname : string }.

(** Get the current tenant from window.location.hostname. *)
Definition getCurrentTenant (window : Window) : JsPrim :=
  let hostname := location_hostname window in
  let tenant := extractTenantFromHostname (JsString hostname) in
  tenant.

(** Get the current domain from window.location.hostname. *)
Definition getCurrentDomain (window : Window) : string :=
  extractDomainFromHostname (JsString (location_hostname window)).

(** The outcome of a call that may write to the console: the texts passed
    to [console.warn], in order, and the completion. *)
Definition Logged (A : Type) : Type := list string * Completion A.

(** Generate URL for a specific service based on tenant.  An omitted
    [domain] is [JsNull], the default of the parameter.  On a truthy
    [serviceName] that is not a string, [serviceName.toUpperCase] is
    [undefined] and the call of it throws. *)
Definition generateServiceUrl (window : Window)
    (serviceName tenant domain : JsPrim) : Logged JsPrim :=
  if negb (ToBooleanPrim tenant) || negb (ToBooleanPrim serviceName)
  then ([], Normal JsNull)
  else match serviceName with
       | JsString serviceId =>
           match SERVICE_CONFIG_get (toUpperCase serviceId) with
           | None =>
               (["Unknown service: " +:+ serviceId], Normal JsNull)
           | Some serviceConfig =>
               let targetDomain :=
                 or_else domain
                   (JsString (extractDomainFromHostname
                                (JsString (location_hostname window)))) in
               if decide (format_of serviceConfig = JsString "tenant-prefix")
               then ([], Normal (JsString
                      ("https://" +:+ ToString tenant +:+ "-"
                       +:+ ToString (name_of serviceConfig) +:+ "."
                       +:+ ToString targetDomain
                       +:+ ToString (path_of serviceConfig))))
               else if decide (format_of serviceConfig
                               = JsString "tenant-subdomain")
               then ([], Normal (JsString
                      ("https://" +:+ ToString tenant +:+ "."
                       +:+ ToString targetDomain
                       +:+ ToString (path_of serviceConfig))))
               else (["Unknown service format: "
                      +:+ ToString (format_of serviceConfig)],
                     Normal JsNull)
           end
       | _ => ([], Throw (TypeError "serviceName.toUpperCase is not a function"))
       end.

(** The loop of [generateAllServiceUrls] over the keys of the table, in
    their order; [urls] is the object under construction. *)
Fixpoint forEach_service (window : Window) (tenant domain : JsPrim)
    (entries : list (string * ServiceDescriptor)) (urls : gmap string JsPrim)
    : Logged (gmap string JsPrim) :=
  match entries with
  | [] => ([], Normal urls)
  | (serviceKey, d) :: entries' =>
      let serviceName := name d in
      match generateServiceUrl window (JsString serviceKey) tenant domain with
      | (w, Throw e) => (w, Throw e)
      | (w, Normal url) =>
          let '(w', r) :=
            forEach_service window tenant domain entries'
              (<[serviceName := url]> urls) in
          (w ++ w', r)
      end
  end.

(** Generate all service URLs for a given tenant.  The fresh object [urls]
    is returned by its contents. *)
Definition generateAllServiceUrls (window : Window) (tenant domain : JsPrim)
    : Logged (gmap string JsPrim) :=
  forEach_service window tenant domain SERVICE_CONFIG ∅.

(** The texts matched by [/\$\{TENANT\}/g] and [/\$\{DOMAIN\}/g]. *)
Definition TENANT_TOKEN : string := "${TENANT}".
Definition DOMAIN_TOKEN : string := "${DOMAIN}".

(** Process external link URLs by replacing placeholders.  On a truthy
    [link] that is not a string, [link.replace] is [undefined] and the call
    of it throws. *)
Definition processExternalLink (window : Window)
    (link : JsValue) (tenant domain : JsPrim) : Completion JsValue :=
  if negb (ToBoolean link) || negb (ToBooleanPrim tenant)
  then Normal link
  else
    let targetDomain := or_else domain (JsString (getCurrentDomain window)) in
    match link with
    | JsP (JsString link) =>
        Normal (JsP (JsString
          (replace_global DOMAIN_TOKEN (ToString targetDomain)
             (replace_global TENANT_TOKEN (ToString tenant) link))))
    | _ => Throw (TypeError "link.replace is not a function")
    end.

(** ** The heap: objects and arrays

    Objects and arrays are reached through references.  An object is its
    own enumerable string-keyed properties; an array is its (dense) list of
    elements.  Objects are data: their properties are read and copied, never
    called.  A reference outside the heap reads as an object without
    properties. *)
Inductive HeapCell :=
| HObject (fields : gmap string JsValue)
| HArray (elems : list JsValue).

Abbreviation Heap := (gmap loc HeapCell).

(** [Array.isArray(v)]. *)
Definition isArray (h : Heap) (v : JsValue) : bool :=
  match v with
  | JsRef l => match h !! l with Some (HArray _) => true | _ => false end
  | _ => false
  end.

(** The properties ["0"], ["1"], ... of an array or of a string. *)
Definition index_properties (elems : list JsValue) : gmap string JsValue :=
  list_to_map (imap (λ i v, (pretty i, v)) elems).

Definition code_units (s : string) : list JsValue :=
  (λ c, JsP (JsString (String c EmptyString))) <$> String.list_ascii_of_string s.

(** The own enumerable properties that [Object.assign] copies from a
    source. *)
Definition own_enumerable (h : Heap) (source : JsValue) : gmap string JsValue :=
  match source with
  | JsP (JsString s) => index_properties (code_units s)
  | JsP _ | JsFunction _ => ∅
  | JsRef l =>
      match h !! l with
      | Some (HObject fields) => fields
      | Some (HArray elems) => index_properties elems
      | None => ∅
      end
  end.

(** [v.link]: reading the property named [link] of a value.  A string
    inherits the method [String.prototype.link]; no other prototype has a
    member of that name. *)
Definition get_link (h : Heap) (v : JsValue) : Completion JsValue :=
  match v with
  | JsP JsUndefined | JsP JsNull =>
      Throw (TypeError "Cannot read properties of null or undefined")
  | JsP (JsString _) => Normal (JsFunction "String.prototype.link")
  | JsP _ | JsFunction _ => Normal (JsP JsUndefined)
  | JsRef l =>
      match h !! l with
      | Some (HObject fields) => Normal (default (JsP JsUndefined) (fields !! "link"))
      | _ => Normal (JsP JsUndefined)
      end
  end.

(** A computation on the heap that may throw. *)
Definition Heapful (A : Type) : Type := Heap → Heap * Completion A.

(** [Object.assign({}, source)]: a fresh object with the properties of
    [source]. *)
Definition Object_assign_fresh (source : JsValue) : Heapful loc :=
  λ h, let target := fresh (dom h) in
       (<[target := HObject (own_enumerable h source)]> h, Normal target).

(** [target.link = v]. *)
Definition set_link (target : loc) (v : JsValue) : Heapful unit :=
  λ h, let fields :=
         match h !! target with
         | Some (HObject fields) => fields
         | _ => ∅
         end in
       (<[target := HObject (<["link" := v]> fields)]> h, Normal tt).

(** [elems.map(callback)], the elements of the result. *)
Fixpoint Array_map (callback : JsValue → Heapful JsValue) (elems : list JsValue)
    : Heapful (list JsValue) :=
  λ h, match elems with
       | [] => (h, Normal [])
       | e :: elems' =>
           match callback e h with
           | (h1, Throw err) => (h1, Throw err)
           | (h1, Normal v) =>
               match Array_map callback elems' h1 with
               | (h2, Throw err) => (h2, Throw err)
               | (h2, Normal vs) => (h2, Normal (v :: vs))
               end
           end
       end.

(** The arrow function passed to [map] in [processExternalLinks]. *)
Definition processExternalLinks_callback (window : Window)
    (tenant domain : JsPrim) (link : JsValue) : Heapful JsValue :=
  λ h, match Object_assign_fresh link h with
       | (h1, Throw err) => (h1, Throw err)
       | (h1, Normal processedLink) =>
           match get_link h1 link with
           | Throw err => (h1, Throw err)
           | Normal link_link =>
               match processExternalLink window link_link tenant domain with
               | Throw err => (h1, Throw err)
               | Normal v =>
                   (fst (set_link processedLink v h1),
                    Normal (JsRef processedLink))
               end
           end
       end.

(** Process an array of external links by replacing placeholders. *)
Definition processExternalLinks (window : Window)
    (externalLinks : JsValue) (tenant domain : JsPrim) : Heapful JsValue :=
  λ h, if negb (isArray h externalLinks) || negb (ToBooleanPrim tenant)
       then (h, Normal externalLinks)
       else
         match externalLinks with
         | JsRef l =>
             match h !! l with
             | Some (HArray elems) =>
                 let result := fresh (dom h) in
                 let h0 := <[result := HArray []]> h in
                 match Array_map
                         (processExternalLinks_callback window tenant domain)
                         elems h0 with
                 | (h1, Throw err) => (h1, Throw err)
                 | (h1, Normal vs) =>
                     (<[result := HArray vs]> h1, Normal (JsRef result))
                 end
             | _ => (h, Normal externalLinks)
             end
         | _ => (h, Normal externalLinks)
         end.

(** A page and a heap with the array [[{link, text}, {link}]], for
    examples. *)
Definition example_window : Window :=
  {| location_hostname := "ramsay.cloud-tmp.physicsx.ai" |}.


(** * Vocabulary of the specification *)

(** [sub] occurs in [s] right after the prefix [pre]. *)
Definition occurs_at (sub s pre : string) : Prop :=
  ∃ post, s = pre +:+ sub +:+ post.

Definition contains (sub s : string) : Prop :=
  ∃ pre, occurs_at sub s pre.

(** [pre] is what comes before the first occurrence of [sub] in [s]. *)
Definition first_occurrence (sub s pre : string) : Prop :=
  occurs_at sub s pre ∧
  ∀ pre', occurs_at sub s pre' → (String.length pre ≤ String.length pre')%nat.

(** The tenant that is cut out of a first label. *)
Definition truncate_at_kubeflow (tenant : string) : string :=
  if negb (indexOf tenant "-kubeflow" =? -1)
  then substring tenant 0 (indexOf tenant "-kubeflow")
  else tenant.

(** Two code units are the same letter up to case. *)
Definition eqb_char_ignore_case (c d : ascii) : bool :=
  Ascii.eqb c d
  || (is_lower c && Ascii.eqb d (upcase c))
  || (is_lower d && Ascii.eqb c (upcase d)).

Fixpoint eqb_ignore_case (s t : string) : bool :=
  match s, t with
  | EmptyString, EmptyString => true
  | String c s', String d t' =>
      eqb_char_ignore_case c d && eqb_ignore_case s' t'
  | _, _ => false
  end.

(** [serviceId] matches an entry of the service table. *)
Definition matches_entry (serviceId : string) (key : string) (d : ServiceDescriptor)
    : Prop :=
  In (key, d) SERVICE_CONFIG ∧ eqb_ignore_case serviceId key = true.


Fixpoint has_lower (s : string) : bool :=
  match s with
  | EmptyString => false
  | String c s' => is_lower c || has_lower s'
  end.

(** The two URL shapes. *)
Definition tenant_prefix_url (tenant : string) (d : ServiceDescriptor)
    (domain : string) : string :=
  "https://" +:+ tenant +:+ "-" +:+ name d +:+ "." +:+ domain +:+ path d.

Definition tenant_subdomain_url (tenant : string) (d : ServiceDescriptor)
    (domain : string) : string :=
  "https://" +:+ tenant +:+ "." +:+ domain +:+ path d.

Definition service_url (tenant : string) (d : ServiceDescriptor)
    (domain : string) : string :=
  if String.eqb (format d) "tenant-prefix"
  then tenant_prefix_url tenant d domain
  else tenant_subdomain_url tenant d domain.

(** The domain that is used: the argument when truthy, otherwise the one of
    the ambient hostname. *)
Definition target_domain (window : Window) (domain : JsPrim) : JsPrim :=
  or_else domain (JsString (getCurrentDomain window)).

(** What [generateAllServiceUrls] stores for a descriptor. *)
Definition entry_value (window : Window) (tenant domain : JsPrim)
    (d : ServiceDescriptor) : JsPrim :=
  if ToBooleanPrim tenant
  then JsString (service_url (ToString tenant) d
                   (ToString (target_domain window domain)))
  else JsNull.


(** The display names of the table, in order. *)
Definition display_names : list string := (λ e, name e.2) <$> SERVICE_CONFIG.

(** Literal substitution, as the specification words it: every occurrence
    of [token], from left to right and without overlap, is replaced by
    [value] itself. *)
Fixpoint substitute_go (token value : string) (skip : nat) (s : string)
    : string :=
  match s with
  | EmptyString => EmptyString
  | String c s' =>
      match skip with
      | S k => substitute_go token value k s'
      | O =>
          if String.prefix token s
          then value +:+ substitute_go token value (String.length token - 1) s'
          else String c (substitute_go token value 0 s')
      end
  end.

Definition substitute_literally (token value s : string) : string :=
  substitute_go token value 0 s.


(** The heap of [[{link: "${TENANT}"}]]: the array at 1, its element at 2. *)
Definition single_link_heap : Heap :=
  <[1%positive := HArray [JsRef 2%positive]]>
    {[2%positive := HObject {["link" := JsP (JsString "${TENANT}")]}]}.

(** A link template: texts between placeholders. *)
Inductive Segment :=
| Text (s : string)
| TenantPlaceholder
| DomainPlaceholder.

(** The template written out, with [tenant] and [domain] at the
    placeholders. *)
Fixpoint render (tenant domain : string) (template : list Segment) : string :=
  match template with
  | [] => EmptyString
  | Text s :: template' => s +:+ render tenant domain template'
  | TenantPlaceholder :: template' => tenant +:+ render tenant domain template'
  | DomainPlaceholder :: template' => domain +:+ render tenant domain template'
  end.

(** The texts of a template have no dollar sign. *)
Definition plain_text (segment : Segment) : Prop :=
  match segment with
  | Text s => ¬ contains "$" s
  | _ => True
  end.

(** A record of the heap whose [link] is absent, a falsy primitive or a
    string. *)
Definition loose_record (h : Heap) (v : JsValue) : Prop :=
  ∃ l fields,
    v = JsRef l ∧ h !! l = Some (HObject fields) ∧
    (fields !! "link" = None ∨
     ∃ p : JsPrim, fields !! "link" = Some (JsP p) ∧
                   (ToBooleanPrim p = false ∨ ∃ s, p = JsString s)).

(** An element on which the callback of [processExternalLinks] throws:
    [null], [undefined], or a record whose [link] is a truthy primitive
    other than a string. *)
Definition throwing_element (h : Heap) (v : JsValue) : Prop :=
  v = JsP JsNull ∨ v = JsP JsUndefined ∨
  ∃ l fields (p : JsPrim),
    v = JsRef l ∧ h !! l = Some (HObject fields) ∧
    fields !! "link" = Some (JsP p) ∧
    ToBooleanPrim p = true ∧ ∀ s, p ≠ JsString s.

(** The heap of [[r, r]] where [r] is [{text: "Docs"}]: the array at 1,
    the record at 2. *)
Definition shared_record_heap : Heap :=
  <[1%positive := HArray [JsRef 2%positive; JsRef 2%positive]]>
    {[2%positive := HObject {["text" := JsP (JsString "Docs")]}]}.

(** The heap of [[{link: "${TENANT}"}, null]]. *)
Definition null_element_heap : Heap :=
  <[1%positive := HArray [JsRef 2%positive; JsP JsNull]]>
    {[2%positive := HObject {["link" := JsP (JsString "${TENANT}")]}]}.

(** * Properties *)

(** ** Occurrences of a text in a string *)

Section string_facts.

Implicit Types s t sub pre post : string.

Lemma string_app_assoc s t u : (s +:+ t) +:+ u = s +:+ t +:+ u.
Proof. induction s; simpl; congruence. Qed.

Lemma string_app_length s t :
  String.length (s +:+ t) = (String.length s + String.length t)%nat.
Proof. induction s; simpl; congruence. Qed.

Lemma string_app_same_length_inv s s' t t' :
  String.length s = String.length s' → s +:+ t = s' +:+ t' → s = s' ∧ t = t'.
Proof.
  revert s'. induction s as [|c s IH]; intros [|c' s']; simpl; try done.
  intros Hl He. injection Hl as Hl. injection He as -> He.
  destruct (IH _ Hl He) as [-> ->]. done.
Qed.

Lemma prefix_spec sub s :
  String.prefix sub s = true ↔ ∃ post, s = sub +:+ post.
Proof.
  revert s. induction sub as [|c sub IH]; intros [|d s]; simpl.
  - split; [intros _; by exists "" | done].
  - split; [intros _; by exists (String d s) | done].
  - split; [done | intros [post H]; done].
  - destruct (Ascii.ascii_dec c d) as [->|Hne].
    + rewrite IH. split; intros [post H]; exists post; congruence.
    + split; [done | intros [post H]; congruence].
Qed.

Lemma prefix_false sub s :
  String.prefix sub s = false ↔ ¬ ∃ post, s = sub +:+ post.
Proof. rewrite <- prefix_spec. destruct (String.prefix sub s); naive_solver. Qed.

Lemma occurs_at_nil sub s : occurs_at sub s "" ↔ String.prefix sub s = true.
Proof. rewrite prefix_spec. done. Qed.

Lemma occurs_at_cons sub c s pre :
  occurs_at sub (String c s) (String c pre) ↔ occurs_at sub s pre.
Proof. split; intros [post H]; exists post; simpl in *; congruence. Qed.

Lemma occurs_at_cons_inv sub c s pre :
  occurs_at sub (String c s) pre →
  pre = "" ∨ ∃ pre', pre = String c pre' ∧ occurs_at sub s pre'.
Proof.
  intros [post H]. destruct pre as [|d pre]; [by left|right].
  simpl in H. injection H as <- H. exists pre. split; [done|by exists post].
Qed.

Lemma not_contains_cons sub c s :
  ¬ contains sub (String c s) → String.prefix sub (String c s) = false ∧ ¬ contains sub s.
Proof.
  intros H. split.
  - apply not_true_is_false. intros Hp. apply H. exists "". by apply occurs_at_nil.
  - intros [pre Hpre]. apply H. exists (String c pre). by apply occurs_at_cons.
Qed.

Lemma indexOf_unfold s sub :
  indexOf s sub =
  if String.prefix sub s then 0
  else match s with
       | EmptyString => -1
       | String _ s' => if indexOf s' sub =? -1 then -1 else indexOf s' sub + 1
       end.
Proof. by destruct s. Qed.

Lemma indexOf_nonneg s sub : indexOf s sub = -1 ∨ 0 ≤ indexOf s sub.
Proof.
  induction s as [|c s IH]; rewrite indexOf_unfold.
  - destruct (String.prefix sub ""); lia.
  - destruct (String.prefix sub (String c s)); [lia|].
    destruct (Z.eqb_spec (indexOf s sub) (-1)); lia.
Qed.

(** [indexOf] finds nothing exactly when there is no occurrence. *)
Lemma indexOf_none s sub : indexOf s sub = -1 ↔ ¬ contains sub s.
Proof.
  induction s as [|c s IH]; rewrite indexOf_unfold.
  - destruct (String.prefix sub "") eqn:Hp.
    + split; [done|]. intros H. exfalso. apply H. exists "". by apply occurs_at_nil.
    + split; [intros _|done]. intros [pre [post H]].
      destruct pre; [|done]. apply prefix_false in Hp. apply Hp. by exists post.
  - destruct (String.prefix sub (String c s)) eqn:Hp.
    + split; [done|]. intros H. exfalso. apply H. exists "". by apply occurs_at_nil.
    + destruct (Z.eqb_spec (indexOf s sub) (-1)) as [He|Hne].
      * split; [intros _|done]. intros [pre Hpre].
        destruct (occurs_at_cons_inv _ _ _ _ Hpre) as [->|(pre' & -> & Hpre')].
        -- apply occurs_at_nil in Hpre. congruence.
        -- apply IH in He. apply He. by exists pre'.
      * split; [pose proof (indexOf_nonneg s sub); lia|].
        intros H. apply not_contains_cons in H as [_ H].
        apply IH in H. done.
Qed.

(** Otherwise [indexOf] is the length of what precedes the first
    occurrence. *)
Lemma indexOf_first s sub :
  indexOf s sub ≠ -1 →
  ∃ pre, first_occurrence sub s pre ∧ indexOf s sub = Z.of_nat (String.length pre).
Proof.
  induction s as [|c s IH]; rewrite indexOf_unfold.
  - destruct (String.prefix sub "") eqn:Hp; [|done]. intros _.
    exists "". split; [|done]. split; [by apply occurs_at_nil|simpl; lia].
  - destruct (String.prefix sub (String c s)) eqn:Hp.
    + intros _. exists "". split; [|done]. split; [by apply occurs_at_nil|simpl; lia].
    + destruct (Z.eqb_spec (indexOf s sub) (-1)) as [He|Hne]; [done|]. intros _.
      destruct (IH Hne) as (pre & [Hocc Hmin] & Hlen).
      exists (String c pre). split; [split|].
      * by apply occurs_at_cons.
      * intros pre' Hpre'.
        destruct (occurs_at_cons_inv _ _ _ _ Hpre') as [->|(pre'' & -> & Hpre'')].
        -- apply occurs_at_nil in Hpre'. congruence.
        -- simpl. apply Hmin in Hpre''. lia.
      * simpl String.length. lia.
Qed.

Lemma first_occurrence_unique sub s pre pre' :
  first_occurrence sub s pre → first_occurrence sub s pre' → pre = pre'.
Proof.
  intros [[post H1] Hm1] [[post' H2] Hm2].
  assert (String.length pre = String.length pre') as Hl.
  { apply Nat.le_antisymm; [apply Hm1|apply Hm2]; eexists; eauto. }
  rewrite H1 in H2. by apply string_app_same_length_inv in H2 as [-> _].
Qed.

Lemma stdlib_substring_0_app pre post :
  String.substring 0 (String.length pre) (pre +:+ post) = pre.
Proof. induction pre; simpl; [by destruct post|congruence]. Qed.

Lemma stdlib_substring_all s : String.substring 0 (String.length s) s = s.
Proof. induction s; simpl; congruence. Qed.

Lemma stdlib_substring_skip pre post :
  String.substring (String.length pre) (String.length post) (pre +:+ post) = post.
Proof. induction pre; simpl; [apply stdlib_substring_all|done]. Qed.

(** [s.substring(0, i)] is the prefix of length [i]. *)
Lemma substring_prefix pre post :
  substring (pre +:+ post) 0 (Z.of_nat (String.length pre)) = pre.
Proof.
  unfold substring. rewrite string_app_length.
  replace (Z.min (Z.max 0 0) _) with 0 by lia.
  replace (Z.min (Z.max (Z.of_nat (String.length pre)) 0) _)
    with (Z.of_nat (String.length pre)) by lia.
  replace (Z.min 0 _) with 0 by lia.
  replace (Z.max 0 _) with (Z.of_nat (String.length pre)) by lia.
  rewrite Z.sub_0_r, Nat2Z.id. apply stdlib_substring_0_app.
Qed.

(** [s.substring(i)] is what follows the prefix of length [i]. *)
Lemma substring_from_suffix pre post :
  substring_from (pre +:+ post) (Z.of_nat (String.length pre)) = post.
Proof.
  unfold substring_from, substring. rewrite string_app_length.
  set (n := String.length pre). set (m := String.length post).
  replace (Z.min (Z.max (Z.of_nat n) 0) _) with (Z.of_nat n) by lia.
  replace (Z.min (Z.max (Z.of_nat (n + m)) 0) _) with (Z.of_nat (n + m)) by lia.
  replace (Z.min (Z.of_nat n) _) with (Z.of_nat n) by lia.
  replace (Z.max (Z.of_nat n) _) with (Z.of_nat (n + m)) by lia.
  replace (Z.of_nat (n + m) - Z.of_nat n) with (Z.of_nat m) by lia.
  rewrite !Nat2Z.id. apply stdlib_substring_skip.
Qed.

End string_facts.

(** ** Splitting at dots *)

Section split_facts.

Implicit Types s first rest : string.

Lemma split_not_nil c s : split c s ≠ [].
Proof.
  destruct s as [|d s]; simpl; [done|].
  destruct (Ascii.eqb d c); [done|]. by destruct (split c s).
Qed.

Lemma not_contains_char_cons c d s :
  ¬ contains (String c "") (String d s) ↔ d ≠ c ∧ ¬ contains (String c "") s.
Proof.
  split.
  - intros H. split.
    + intros ->. apply H. exists "", s. done.
    + intros [pre Hpre]. apply H. exists (String d pre). by apply occurs_at_cons.
  - intros [Hne Hs] [pre Hpre].
    destruct (occurs_at_cons_inv _ _ _ _ Hpre) as [->|(pre' & -> & Hpre')].
    + destruct Hpre as [post Hpost]. simpl in Hpost. congruence.
    + apply Hs. by exists pre'.
Qed.

(** A string without the separator is a single part. *)
Lemma split_no_sep c s : ¬ contains (String c "") s → split c s = [s].
Proof.
  induction s as [|d s IH]; [done|].
  intros [Hne Hs]%not_contains_char_cons. simpl.
  destruct (Ascii.eqb_spec d c) as [->|_]; [done|]. by rewrite (IH Hs).
Qed.

(** The first part ends at the first separator. *)
Lemma split_first c first rest :
  ¬ contains (String c "") first →
  split c (first +:+ String c rest) = first :: split c rest.
Proof.
  induction first as [|d first IH]; simpl.
  - intros _. by rewrite Ascii.eqb_refl.
  - intros [Hne Hs]%not_contains_char_cons.
    destruct (Ascii.eqb_spec d c) as [->|_]; [done|]. by rewrite (IH Hs).
Qed.

Lemma concat_cons sep p ps :
  ps ≠ [] → String.concat sep (p :: ps) = p +:+ sep +:+ String.concat sep ps.
Proof. by destruct ps. Qed.

(** Joining the parts with the separator gives the string back. *)
Lemma join_split c s : join (String c "") (split c s) = s.
Proof.
  unfold join. induction s as [|d s IH]; [done|]. simpl.
  destruct (Ascii.eqb_spec d c) as [->|_].
  - rewrite concat_cons by apply split_not_nil. simpl. by rewrite IH.
  - destruct (split c s) as [|p ps] eqn:Hsp; [by apply split_not_nil in Hsp|].
    destruct ps as [|q ps].
    + simpl in *. by rewrite IH.
    + rewrite concat_cons by done. rewrite concat_cons in IH by done.
      by rewrite <- IH.
Qed.

Lemma contains_dec_char c s :
  {pre & {post | s = pre +:+ String c post ∧ ¬ contains (String c "") pre}}
  + {¬ contains (String c "") s}.
Proof.
  induction s as [|d s IH].
  - right. intros [pre [post H]]. by destruct pre.
  - destruct (Ascii.ascii_dec d c) as [->|Hne].
    + left. exists "", s. split; [done|]. intros [pre [post H]]. by destruct pre.
    + destruct IH as [(pre & post & -> & Hpre)|Hs].
      * left. exists (String d pre), post. split; [done|].
        by apply not_contains_char_cons.
      * right. by apply not_contains_char_cons.
Defined.

End split_facts.

(** ** The hostname parser *)

Section hostname_parser.

Implicit Types s first rest : string.

Lemma eqb_empty_app_dot first rest :
  String.eqb (first +:+ String "." rest) "" = false.
Proof. by destruct first. Qed.

Lemma nonempty_truthy s : s ≠ "" → ToBooleanPrim (JsString s) = true.
Proof. intros H. simpl. by destruct s. Qed.

(** What the parser does on a hostname that has a dot: [first] is the text
    before the first dot, [rest] the text after it. *)
Lemma extractTenant_dotted first rest :
  ¬ contains "." first →
  extractTenantFromHostname (JsString (first +:+ "." +:+ rest)) =
  if String.eqb first "" || String.eqb rest ""
  then JsNull
  else JsString (truncate_at_kubeflow first).
Proof.
  intros Hfirst. unfold extractTenantFromHostname.
  cbn [ToBoolean ToBooleanPrim typeof String.eqb].
  change ("." +:+ rest) with (String "." rest).
  rewrite eqb_empty_app_dot. cbn [negb orb].
  rewrite (split_first "." first rest Hfirst).
  pose proof (split_not_nil "." rest) as Hne.
  destruct (split "." rest) as [|p ps] eqn:Hsp; [done|].
  replace (Z.of_nat (length (first :: p :: ps)) <? 2) with false
    by (symmetry; apply Z.ltb_ge; simpl length; lia).
  cbn [nth slice1 tail]. rewrite <- Hsp, (join_split "." rest).
  unfold truncate_at_kubeflow.
  destruct first as [|a first], rest as [|b rest]; done.
Qed.

(** A string hostname without a dot has no tenant. *)
Lemma extractTenant_undotted s :
  ¬ contains "." s → extractTenantFromHostname (JsString s) = JsNull.
Proof.
  intros Hs. unfold extractTenantFromHostname.
  cbn [ToBoolean ToBooleanPrim typeof String.eqb].
  destruct (String.eqb s ""); [done|]. cbn [negb orb].
  by rewrite (split_no_sep "." s Hs).
Qed.

(** Anything but a string has no tenant. *)
Lemma extractTenant_not_string (v : JsValue) :
  (∀ s, v ≠ JsP (JsString s)) → extractTenantFromHostname v = JsNull.
Proof.
  intros Hv. destruct v as [[| | | |s]| |]; try done.
  - unfold extractTenantFromHostname. simpl. by destruct b.
  - unfold extractTenantFromHostname. simpl. by destruct (n =? 0).
  - by destruct (Hv s).
Qed.

(** The parser returns [null] or a string. *)
Lemma extractTenant_null_or_string (v : JsValue) :
  extractTenantFromHostname v = JsNull ∨
  ∃ s, extractTenantFromHostname v = JsString s.
Proof.
  destruct v as [[| | | |s]| |]; try (left; apply extractTenant_not_string; done).
  destruct (contains_dec_char "." s) as [(pre & post & -> & Hpre)|Hs].
  - change (String "." post) with ("." +:+ post).
    rewrite (extractTenant_dotted pre post Hpre).
    destruct (_ || _); eauto.
  - left. by apply extractTenant_undotted.
Qed.

Lemma truncate_no_kubeflow first :
  ¬ contains "-kubeflow" first → truncate_at_kubeflow first = first.
Proof.
  intros H%indexOf_none. unfold truncate_at_kubeflow. by rewrite H.
Qed.

Lemma truncate_first_kubeflow first pre :
  first_occurrence "-kubeflow" first pre → truncate_at_kubeflow first = pre.
Proof.
  intros Hpre. unfold truncate_at_kubeflow.
  destruct (Z.eqb_spec (indexOf first "-kubeflow") (-1)) as [He|Hne].
  - apply indexOf_none in He. destruct He. exists pre. apply Hpre.
  - destruct (indexOf_first _ _ Hne) as (pre' & Hpre' & ->).
    rewrite (first_occurrence_unique _ _ _ _ Hpre Hpre').
    destruct Hpre' as [[post ->] _]. simpl negb. cbv iota.
    apply substring_prefix.
Qed.

End hostname_parser.

Section domain_parser.

Implicit Types s pre post : string.

Lemma indexOf_char_first c pre post :
  ¬ contains (String c "") pre →
  indexOf (pre +:+ String c post) (String c "") = Z.of_nat (String.length pre).
Proof.
  induction pre as [|d pre IH]; intros Hpre; rewrite indexOf_unfold.
  - replace (String.prefix (String c "") ("" +:+ String c post)) with true; [done|].
    symmetry. apply prefix_spec. by exists post.
  - apply not_contains_char_cons in Hpre as [Hne Hpre].
    replace (String.prefix (String c "") (String d pre +:+ String c post))
      with false.
    + simpl String.append. cbv iota. rewrite (IH Hpre).
      destruct (Z.eqb_spec (Z.of_nat (String.length pre)) (-1)); [lia|].
      simpl String.length. lia.
    + symmetry. apply prefix_false. intros [post' H]. simpl in H. congruence.
Qed.

Lemma extractDomain_not_string (v : JsValue) :
  (∀ s, v ≠ JsP (JsString s)) → extractDomainFromHostname v = DEFAULT_DOMAIN.
Proof.
  intros Hv. destruct v as [[| | | |s]| |]; try done.
  - unfold extractDomainFromHostname. simpl. by destruct b.
  - unfold extractDomainFromHostname. simpl. by destruct (n =? 0).
  - by destruct (Hv s).
Qed.

Lemma extractDomain_undotted s :
  ¬ contains "." s → extractDomainFromHostname (JsString s) = DEFAULT_DOMAIN.
Proof.
  intros Hs%indexOf_none. unfold extractDomainFromHostname.
  cbn [ToBoolean ToBooleanPrim typeof String.eqb].
  destruct (String.eqb s ""); [done|]. cbn [negb orb]. by rewrite Hs.
Qed.

Lemma extractDomain_dotted pre post :
  ¬ contains "." pre →
  extractDomainFromHostname (JsString (pre +:+ "." +:+ post)) = post.
Proof.
  intros Hpre. unfold extractDomainFromHostname.
  cbn [ToBoolean ToBooleanPrim typeof String.eqb].
  change ("." +:+ post) with (String "." post).
  rewrite eqb_empty_app_dot. cbn [negb orb].
  rewrite (indexOf_char_first "." pre post Hpre).
  destruct (Z.eqb_spec (Z.of_nat (String.length pre)) (-1)); [lia|].
  change (String "." post) with ("." +:+ post).
  rewrite <- string_app_assoc.
  replace (Z.of_nat (String.length pre) + 1)
    with (Z.of_nat (String.length (pre +:+ "."))).
  - apply substring_from_suffix.
  - rewrite string_app_length. simpl String.length. lia.
Qed.

Lemma DEFAULT_DOMAIN_dotted : contains "." DEFAULT_DOMAIN.
Proof. exists "cloud-tmp", "physicsx.ai". done. Qed.

(** The result is never the argument itself. *)
Lemma extractDomain_not_whole (v : JsValue) :
  JsP (JsString (extractDomainFromHostname v)) ≠ v.
Proof.
  destruct v as [[| | | |s]| |]; try done.
  destruct (contains_dec_char "." s) as [(pre & post & -> & Hpre)|Hs].
  - change (String "." post) with ("." +:+ post).
    rewrite (extractDomain_dotted pre post Hpre).
    intros [= H]. apply (f_equal String.length) in H.
    rewrite !string_app_length in H. simpl in H. lia.
  - rewrite (extractDomain_undotted s Hs).
    intros [= <-]. apply Hs, DEFAULT_DOMAIN_dotted.
Qed.

End domain_parser.

(** ** Claims on the hostname parser *)

(** C2, as stated, at the hostname [localhost.]: it has two dot-separated
    labels, the first of them, [localhost], non-empty and without
    [-kubeflow], and the parser returns [null] rather than that label. *)
Lemma extractTenant_trailing_dot_null :
  "localhost." = "localhost" +:+ "." +:+ "" ∧
  split "." "localhost." = ["localhost"; ""] ∧
  ¬ contains "." "localhost" ∧
  "localhost" ≠ "" ∧
  ¬ contains "-kubeflow" "localhost" ∧
  extractTenantFromHostname (JsString "localhost.") = JsNull ∧
  extractTenantFromHostname (JsString "localhost.") ≠ JsString "localhost".
Proof.
  repeat split; try done; apply indexOf_none; reflexivity.
Qed.

(** C2, amended: for a hostname [first.rest] whose first label [first] is
    non-empty and whose remainder [rest] after the first dot is non-empty,
    [extractTenantFromHostname] returns [first] when it does not contain
    [-kubeflow], and otherwise the portion of [first] strictly before the
    first occurrence of [-kubeflow]; with the two examples of the
    specification. *)
Theorem extractTenant_first_label :
  (∀ first rest : string,
     ¬ contains "." first → first ≠ "" → rest ≠ "" →
     (¬ contains "-kubeflow" first →
      extractTenantFromHostname (JsString (first +:+ "." +:+ rest))
      = JsString first) ∧
     (∀ pre, first_occurrence "-kubeflow" first pre →
      extractTenantFromHostname (JsString (first +:+ "." +:+ rest))
      = JsString pre)) ∧
  extractTenantFromHostname (JsString "ramsay.cloud-tmp.physicsx.ai")
  = JsString "ramsay" ∧
  extractTenantFromHostname (JsString "demo-dev-kubeflow.cloud-tmp.physicsx.ai")
  = JsString "demo-dev".
Proof.
  split; [|done].
  intros first rest Hdot Hfirst Hrest.
  rewrite (extractTenant_dotted first rest Hdot).
  replace (String.eqb first "") with false by (by destruct first).
  replace (String.eqb rest "") with false by (by destruct rest).
  cbn [orb]. split.
  - intros H. by rewrite (truncate_no_kubeflow first H).
  - intros pre H. by rewrite (truncate_first_kubeflow first pre H).
Qed.

Lemma extractTenant_first_label_witness :
  extractTenantFromHostname (JsString ("tenant-a" +:+ "." +:+ "example.org"))
  = JsString "tenant-a".
Proof.
  refine (proj1 (proj1 extractTenant_first_label "tenant-a" "example.org" _ _ _) _).
  - apply indexOf_none. reflexivity.
  - discriminate.
  - discriminate.
  - apply indexOf_none. reflexivity.
Defined.

(** C3 at the hostname [-kubeflow.cloud-tmp.physicsx.ai]: it is a
    non-empty string, both sides of the split are non-empty, and the tenant
    returned is the empty string. *)
Theorem extractTenant_returns_empty_string :
  nth 0 (split "." "-kubeflow.cloud-tmp.physicsx.ai") "" = "-kubeflow" ∧
  join "." (slice1 (split "." "-kubeflow.cloud-tmp.physicsx.ai"))
  = "cloud-tmp.physicsx.ai" ∧
  extractTenantFromHostname (JsString "-kubeflow.cloud-tmp.physicsx.ai")
  = JsString "".
Proof. repeat split. Qed.

(** The cases in which the parser returns [null]. *)
Lemma extractTenant_null_cases :
  (∀ v : JsValue, (∀ s, v = JsP (JsString s) → s = "") →
     extractTenantFromHostname v = JsNull) ∧
  (∀ s : string, ¬ contains "." s →
     extractTenantFromHostname (JsString s) = JsNull) ∧
  (∀ first rest : string, ¬ contains "." first → first = "" ∨ rest = "" →
     extractTenantFromHostname (JsString (first +:+ "." +:+ rest)) = JsNull).
Proof.
  split; [|split].
  - intros v Hv. destruct v as [[| | | |s]| |];
      try (apply extractTenant_not_string; done).
    by rewrite (Hv s eq_refl).
  - apply extractTenant_undotted.
  - intros first rest Hdot Hor. rewrite (extractTenant_dotted first rest Hdot).
    by destruct Hor as [-> | ->]; [|rewrite orb_true_r].
Qed.

(** C5: [extractDomainFromHostname] returns the default domain when its
    argument is not a non-empty string or has no dot, otherwise what follows
    the first dot; it never returns its argument. *)
Theorem extractDomain_spec :
  DEFAULT_DOMAIN = "cloud-tmp.physicsx.ai" ∧
  (∀ v : JsValue, (∀ s, v = JsP (JsString s) → s = "") →
     extractDomainFromHostname v = DEFAULT_DOMAIN) ∧
  (∀ s : string, ¬ contains "." s →
     extractDomainFromHostname (JsString s) = DEFAULT_DOMAIN) ∧
  (∀ pre post : string, ¬ contains "." pre →
     extractDomainFromHostname (JsString (pre +:+ "." +:+ post)) = post) ∧
  (∀ v : JsValue, JsP (JsString (extractDomainFromHostname v)) ≠ v) ∧
  extractDomainFromHostname (JsString "ramsay.cloud-tmp.physicsx.ai")
  = "cloud-tmp.physicsx.ai" ∧
  extractDomainFromHostname (JsString "nodothost") = "cloud-tmp.physicsx.ai".
Proof.
  split; [done|]. split; [|split; [|split; [|split; [|done]]]].
  - intros v Hv. destruct v as [[| | | |s]| |];
      try (apply extractDomain_not_string; done).
    by rewrite (Hv s eq_refl).
  - apply extractDomain_undotted.
  - apply extractDomain_dotted.
  - apply extractDomain_not_whole.
Qed.

Lemma extractDomain_spec_witness :
  extractDomainFromHostname (JsNumber 42) = DEFAULT_DOMAIN ∧
  extractDomainFromHostname (JsString "localhost") = DEFAULT_DOMAIN ∧
  extractDomainFromHostname (JsString ("tenant-a" +:+ "." +:+ "example.org"))
  = "example.org".
Proof.
  destruct extractDomain_spec as (_ & Hother & Hundotted & Hdotted & _).
  split; [|split].
  - apply Hother. discriminate.
  - apply Hundotted, indexOf_none. reflexivity.
  - apply Hdotted, indexOf_none. reflexivity.
Defined.

(** ** Case-insensitive identifiers *)

Section case_facts.

Implicit Types s t key : string.

Lemma upcase_not_lower c : is_lower (upcase c) = false.
Proof. by destruct c as [[] [] [] [] [] [] [] []]. Qed.

Lemma toUpperCase_no_lower s : has_lower (toUpperCase s) = false.
Proof. induction s; simpl; [done|]. by rewrite upcase_not_lower, IHs. Qed.

Lemma upcase_eq_iff c d :
  is_lower d = false → upcase c = d ↔ eqb_char_ignore_case c d = true.
Proof.
  intros Hd. unfold eqb_char_ignore_case. rewrite Hd, andb_false_l, orb_false_r.
  split.
  - intros <-. unfold upcase at 1. destruct (is_lower c) eqn:Hc.
    + by rewrite Ascii.eqb_refl, orb_true_r.
    + unfold upcase. by rewrite Hc, Ascii.eqb_refl.
  - intros [H|[Hc H]%andb_prop]%orb_prop.
    + apply Ascii.eqb_eq in H as ->. unfold upcase. by rewrite Hd.
    + by apply Ascii.eqb_eq in H.
Qed.

(** Upper-casing an identifier gives a key without lower-case letters
    exactly when the two are equal up to case. *)
Lemma toUpperCase_eq_iff s key :
  has_lower key = false →
  toUpperCase s = key ↔ eqb_ignore_case s key = true.
Proof.
  revert key. induction s as [|c s IH]; intros [|d key]; simpl; try done.
  intros [Hd Hkey]%orb_false_elim.
  rewrite andb_true_iff, <- (upcase_eq_iff c d Hd), <- (IH key Hkey).
  split; [intros [= -> ->]; done | intros [-> ->]; done].
Qed.

Lemma own_property_None key (table : list (string * ServiceDescriptor)) :
  (∀ k d, In (k, d) table → key ≠ k) → own_property key table = None.
Proof.
  induction table as [|[k d] table IH]; [done|]. intros H. simpl.
  destruct (String.eqb_spec key k) as [->|_].
  - destruct (H k d); [by left|done].
  - apply IH. intros k' d' Hin. apply (H k' d'). by right.
Qed.

Lemma existsb_eqb_false key (names : list string) :
  (∀ n, In n names → key ≠ n) → existsb (String.eqb key) names = false.
Proof.
  induction names as [|n names IH]; [done|]. intros H. simpl.
  destruct (String.eqb_spec key n) as [->|_].
  - destruct (H n); [by left|done].
  - apply IH. intros n' Hin. apply H. by right.
Qed.

(** No member inherited from [Object.prototype] is spelt in upper case, so
    an upper-cased identifier never reaches one. *)
Lemma toUpperCase_not_inherited s :
  existsb (String.eqb (toUpperCase s)) Object_prototype_names = false.
Proof.
  apply existsb_eqb_false. intros n Hn He.
  pose proof (toUpperCase_no_lower s) as Hs. rewrite He in Hs.
  simpl in Hn. by repeat destruct Hn as [<-|Hn].
Qed.

Lemma SERVICE_CONFIG_upper key d :
  In (key, d) SERVICE_CONFIG → has_lower key = false.
Proof. simpl. intros H. by repeat destruct H as [[= <- <-]|H]. Qed.

Lemma SERVICE_CONFIG_get_own key d :
  In (key, d) SERVICE_CONFIG → SERVICE_CONFIG_get key = Some (Own d).
Proof. simpl. intros H. by repeat destruct H as [[= <- <-]|H]. Qed.

Lemma SERVICE_CONFIG_format key d :
  In (key, d) SERVICE_CONFIG →
  format d = "tenant-prefix" ∨ format d = "tenant-subdomain".
Proof. simpl. intros H. repeat destruct H as [[= <- <-]|H]; auto. done. Qed.

Lemma SERVICE_CONFIG_get_matched s key d :
  matches_entry s key d → SERVICE_CONFIG_get (toUpperCase s) = Some (Own d).
Proof.
  intros [Hin Hm].
  apply (toUpperCase_eq_iff s key (SERVICE_CONFIG_upper key d Hin)) in Hm as ->.
  by apply SERVICE_CONFIG_get_own.
Qed.

Lemma SERVICE_CONFIG_get_unmatched s :
  (∀ key d, ¬ matches_entry s key d) → SERVICE_CONFIG_get (toUpperCase s) = None.
Proof.
  intros Hs. unfold SERVICE_CONFIG_get.
  rewrite own_property_None, toUpperCase_not_inherited; [done|].
  intros k d Hin He. apply (Hs k d). split; [done|].
  by apply (toUpperCase_eq_iff s k (SERVICE_CONFIG_upper k d Hin)).
Qed.

Lemma matches_entry_nonempty s key d : matches_entry s key d → s ≠ "".
Proof.
  intros [Hin Hm] ->. simpl in Hin.
  by repeat destruct Hin as [[= <- <-]|Hin].
Qed.

End case_facts.

(** ** The service URL generator *)

Section generator.

Variable window : Window.
Implicit Types serviceName tenant domain : JsPrim.

Lemma generateServiceUrl_falsy serviceName tenant domain :
  ToBooleanPrim tenant = false ∨ ToBooleanPrim serviceName = false →
  generateServiceUrl window serviceName tenant domain = ([], Normal JsNull).
Proof.
  unfold generateServiceUrl. intros [-> | ->]; [done|].
  by rewrite orb_true_r.
Qed.

Lemma generateServiceUrl_matched s tenant domain key d :
  ToBooleanPrim tenant = true → matches_entry s key d →
  generateServiceUrl window (JsString s) tenant domain =
  ([], Normal (JsString (service_url (ToString tenant) d
                           (ToString (target_domain window domain))))).
Proof.
  intros Ht Hm. unfold generateServiceUrl. rewrite Ht.
  rewrite (nonempty_truthy s (matches_entry_nonempty s key d Hm)).
  cbn [negb orb]. rewrite (SERVICE_CONFIG_get_matched s key d Hm).
  cbn [format_of name_of path_of ToString]. unfold service_url.
  destruct Hm as [Hin _].
  destruct (SERVICE_CONFIG_format key d Hin) as [Hf|Hf]; rewrite Hf.
  - by rewrite decide_True.
  - rewrite decide_False by done. by rewrite decide_True.
Qed.

Lemma generateServiceUrl_unmatched s tenant domain :
  ToBooleanPrim tenant = true → s ≠ "" →
  (∀ key d, ¬ matches_entry s key d) →
  generateServiceUrl window (JsString s) tenant domain =
  (["Unknown service: " +:+ s], Normal JsNull).
Proof.
  intros Ht Hs Hm. unfold generateServiceUrl. rewrite Ht.
  rewrite (nonempty_truthy s Hs). cbn [negb orb].
  by rewrite (SERVICE_CONFIG_get_unmatched s Hm).
Qed.

(** A key of the table matches itself. *)
Lemma matches_entry_key key d :
  In (key, d) SERVICE_CONFIG → matches_entry key key d.
Proof.
  intros Hin. split; [done|]. simpl in Hin.
  by repeat destruct Hin as [[= <- <-]|Hin].
Qed.

Lemma generateServiceUrl_key tenant domain key d :
  In (key, d) SERVICE_CONFIG →
  generateServiceUrl window (JsString key) tenant domain =
  ([], Normal (entry_value window tenant domain d)).
Proof.
  intros Hin. unfold entry_value. destruct (ToBooleanPrim tenant) eqn:Ht.
  - by apply generateServiceUrl_matched with key, matches_entry_key.
  - apply generateServiceUrl_falsy. by left.
Qed.

(** The loop of [generateAllServiceUrls] stores one value per entry, in
    order, whatever the values are. *)
Lemma forEach_service_spec tenant domain entries urls :
  (∀ key d, In (key, d) entries → In (key, d) SERVICE_CONFIG) →
  forEach_service window tenant domain entries urls =
  ([], Normal (foldl (λ m e, <[name e.2 := entry_value window tenant domain e.2]> m)
                 urls entries)).
Proof.
  revert urls. induction entries as [|[key d] entries IH]; intros urls Hsub; [done|].
  cbn [forEach_service foldl].
  rewrite (generateServiceUrl_key tenant domain key d) by (apply Hsub; by left).
  rewrite IH; [done|]. intros k' d' Hin. apply Hsub. by right.
Qed.

Lemma generateAllServiceUrls_spec tenant domain :
  generateAllServiceUrls window tenant domain =
  ([], Normal (foldl (λ m e, <[name e.2 := entry_value window tenant domain e.2]> m)
                 ∅ SERVICE_CONFIG)).
Proof. by apply forEach_service_spec. Qed.

End generator.

(** ** Claims on the service URL generator *)

(** C1: for non-empty tenant and domain strings and an identifier that
    matches an entry of the table up to case, [generateServiceUrl] returns
    the URL of the shape selected by the entry's format, without a warning;
    with the two examples of the specification. *)
Theorem generateServiceUrl_shapes :
  (∀ (window : Window) (serviceId tenant domain key : string)
     (d : ServiceDescriptor),
     tenant ≠ "" → domain ≠ "" → matches_entry serviceId key d →
     ∃ url,
       generateServiceUrl window (JsString serviceId) (JsString tenant)
         (JsString domain) = ([], Normal (JsString url)) ∧
       ((format d = "tenant-prefix" ∧
         url = "https://" +:+ tenant +:+ "-" +:+ name d +:+ "." +:+ domain
               +:+ path d) ∨
        (format d = "tenant-subdomain" ∧
         url = "https://" +:+ tenant +:+ "." +:+ domain +:+ path d))) ∧
  (∀ window : Window,
     generateServiceUrl window (JsString "MLFLOW") (JsString "ramsay")
       (JsString "cloud-tmp.physicsx.ai")
     = ([], Normal (JsString "https://ramsay-mlflow.cloud-tmp.physicsx.ai/"))) ∧
  (∀ window : Window,
     generateServiceUrl window (JsString "optimizer") (JsString "demo-dev")
       (JsString "cloud-tmp.physicsx.ai")
     = ([], Normal (JsString
          "https://demo-dev.cloud-tmp.physicsx.ai/platform-app/app/optimizer"))).
Proof.
  split; [|done].
  intros window serviceId tenant domain key d Ht Hd Hm.
  eexists. split.
  - apply generateServiceUrl_matched with key; [by apply nonempty_truthy|done].
  - unfold target_domain, or_else. rewrite (nonempty_truthy domain Hd).
    cbn [ToString]. unfold service_url. destruct Hm as [Hin _].
    destruct (SERVICE_CONFIG_format key d Hin) as [Hf|Hf]; rewrite Hf;
      [left|right]; done.
Qed.

Lemma generateServiceUrl_shapes_witness :
  ∃ url,
    generateServiceUrl {| location_hostname := "localhost" |}
      (JsString "Vault") (JsString "acme") (JsString "example.org")
    = ([], Normal (JsString url)) ∧
    (("tenant-subdomain" = "tenant-prefix" ∧
      url = "https://" +:+ "acme" +:+ "-" +:+ "vault" +:+ "." +:+ "example.org"
            +:+ "/vault-filebrowser/files/") ∨
     ("tenant-subdomain" = "tenant-subdomain" ∧
      url = "https://" +:+ "acme" +:+ "." +:+ "example.org"
            +:+ "/vault-filebrowser/files/")).
Proof.
  refine (proj1 generateServiceUrl_shapes {| location_hostname := "localhost" |}
            "Vault" "acme" "example.org" "VAULT"
            {| name := "vault"; format := "tenant-subdomain";
               path := "/vault-filebrowser/files/" |} _ _ _).
  - discriminate.
  - discriminate.
  - split; [|reflexivity]. simpl. tauto.
Defined.

Lemma own_property_Some key d (table : list (string * ServiceDescriptor)) :
  own_property key table = Some d → In (key, d) table.
Proof.
  induction table as [|[k d'] table IH]; [done|]. simpl.
  destruct (String.eqb_spec key k) as [->|_].
  - intros [= ->]. by left.
  - intros H. right. by apply IH.
Qed.

(** An identifier matches an entry of the table or none. *)
Lemma matches_entry_dec (s : string) :
  (∃ key d, matches_entry s key d) ∨ (∀ key d, ¬ matches_entry s key d).
Proof.
  destruct (own_property (toUpperCase s) SERVICE_CONFIG) as [d|] eqn:Hown.
  - left. exists (toUpperCase s), d. split; [by apply own_property_Some|].
    by apply toUpperCase_eq_iff; [apply toUpperCase_no_lower|].
  - right. intros key d [Hin Hm].
    apply (toUpperCase_eq_iff s key (SERVICE_CONFIG_upper key d Hin)) in Hm.
    apply SERVICE_CONFIG_get_own in Hin. unfold SERVICE_CONFIG_get in Hin.
    rewrite <- Hm, Hown in Hin. by destruct (existsb _ _).
Qed.





(** C6: for non-empty tenant and domain strings [generateAllServiceUrls]
    returns a mapping with exactly 6 entries, one per entry of the table,
    keyed by the descriptors' display names, none of them [null]; and for
    any tenant and domain, also when results are [null], every entry of the
    table has its own result of [generateServiceUrl] stored under its display
    name. *)
Theorem generateAllServiceUrls_entries :
  length SERVICE_CONFIG = 6%nat ∧
  (∀ (window : Window) (tenant domain : string),
     tenant ≠ "" → domain ≠ "" →
     ∃ urls : gmap string JsPrim,
       generateAllServiceUrls window (JsString tenant) (JsString domain)
       = ([], Normal urls) ∧
       size urls = 6%nat ∧
       dom urls = list_to_set display_names ∧
       (∀ key d, In (key, d) SERVICE_CONFIG →
          ∃ url, urls !! name d = Some (JsString url) ∧
                 generateServiceUrl window (JsString key) (JsString tenant)
                   (JsString domain) = ([], Normal (JsString url))) ∧
       (∀ n, urls !! n ≠ Some JsNull)) ∧
  (∀ (window : Window) (tenant domain : JsPrim),
     ∃ warnings (urls : gmap string JsPrim),
       generateAllServiceUrls window tenant domain = (warnings, Normal urls) ∧
       size urls = 6%nat ∧
       dom urls = list_to_set display_names ∧
       (∀ key d, In (key, d) SERVICE_CONFIG →
          ∃ w v, generateServiceUrl window (JsString key) tenant domain
                 = (w, Normal v) ∧
                 urls !! name d = Some v)).
Proof.
  assert (∀ (window : Window) (tenant domain : JsPrim),
     ∃ urls : gmap string JsPrim,
       generateAllServiceUrls window tenant domain = ([], Normal urls) ∧
       size urls = 6%nat ∧
       dom urls = list_to_set display_names ∧
       (∀ key d, In (key, d) SERVICE_CONFIG →
          urls !! name d = Some (entry_value window tenant domain d))) as Hall.
  { intros window tenant domain. eexists.
    split; [apply generateAllServiceUrls_spec|].
    generalize (entry_value window tenant domain). intros value.
    split; [by vm_compute|]. split.
    - apply set_eq. intros n. cbn [foldl SERVICE_CONFIG snd name].
      rewrite !dom_insert_L, dom_empty_L. unfold display_names.
      cbn [fmap list_fmap SERVICE_CONFIG snd name list_to_set foldr].
      set_solver.
    - intros key d Hin. simpl in Hin.
      repeat destruct Hin as [[= <- <-]|Hin]; by vm_compute. }
  split; [done|]. split.
  - intros window tenant domain Ht Hd.
    destruct (Hall window (JsString tenant) (JsString domain))
      as (urls & Hrun & Hsize & Hdom & Hval).
    exists urls. repeat split; try done.
    + intros key d Hin. rewrite (Hval key d Hin).
      rewrite (generateServiceUrl_key _ _ _ key d Hin).
      unfold entry_value. rewrite (nonempty_truthy tenant Ht). eauto.
    + intros n Hn.
      assert (n ∈ dom urls) as Hin by (apply elem_of_dom; eauto).
      rewrite Hdom in Hin. unfold display_names in Hin.
      apply elem_of_list_to_set, list_elem_of_fmap in Hin as [[key d] [-> Hin]].
      apply list_elem_of_In in Hin. cbn [snd] in Hn.
      rewrite (Hval key d Hin) in Hn.
      unfold entry_value in Hn. by rewrite (nonempty_truthy tenant Ht) in Hn.
  - intros window tenant domain.
    destruct (Hall window tenant domain) as (urls & Hrun & Hsize & Hdom & Hval).
    exists [], urls. repeat split; try done.
    intros key d Hin. exists [], (entry_value window tenant domain d).
    split; [by apply generateServiceUrl_key|by apply (Hval key)].
Qed.

Lemma generateAllServiceUrls_entries_witness :
  ∃ urls : gmap string JsPrim,
    generateAllServiceUrls {| location_hostname := "localhost" |}
      (JsString "ramsay") (JsString "cloud-tmp.physicsx.ai")
    = ([], Normal urls) ∧
    size urls = 6%nat ∧
    dom urls = list_to_set display_names ∧
    (∀ key d, In (key, d) SERVICE_CONFIG →
       ∃ url, urls !! name d = Some (JsString url) ∧
              generateServiceUrl {| location_hostname := "localhost" |}
                (JsString key) (JsString "ramsay")
                (JsString "cloud-tmp.physicsx.ai")
              = ([], Normal (JsString url))) ∧
    (∀ n, urls !! n ≠ Some JsNull).
Proof.
  apply (proj1 (proj2 generateAllServiceUrls_entries)
           {| location_hostname := "localhost" |}
           "ramsay" "cloud-tmp.physicsx.ai"); discriminate.
Defined.

(** ** Placeholder substitution *)

Section substitution.

Implicit Types s token value before : string.

Lemma replace_go_absent token value before s :
  ¬ contains token s → replace_go token value before 0 s = s.
Proof.
  revert before. induction s as [|c s IH]; intros before Hs; [done|].
  apply not_contains_cons in Hs as [Hp Hs].
  cbn [replace_go]. rewrite Hp. by rewrite (IH _ Hs).
Qed.

(** Without an occurrence of the token, [replace] changes nothing. *)
Lemma replace_global_absent token value s :
  ¬ contains token s → replace_global token value s = s.
Proof. apply replace_go_absent. Qed.

Lemma GetSubstitution_plain matched before after value :
  ¬ contains "$" value → GetSubstitution matched before after value = value.
Proof.
  induction value as [|c value IH]; [done|].
  intros [Hc Hv]%not_contains_char_cons.
  destruct c as [[] [] [] [] [] [] [] []]; try done;
    cbn [GetSubstitution]; by rewrite (IH Hv).
Qed.

(** A replacement text without a dollar sign is substituted literally. *)
Lemma replace_go_plain token value before skip s :
  ¬ contains "$" value →
  replace_go token value before skip s = substitute_go token value skip s.
Proof.
  intros Hv. revert before skip. induction s as [|c s IH]; intros before skip; [done|].
  cbn [replace_go substitute_go]. destruct skip as [|k]; [|apply IH].
  destruct (String.prefix token (String c s)).
  - by rewrite (GetSubstitution_plain _ _ _ _ Hv), IH.
  - by rewrite IH.
Qed.

Lemma replace_global_plain token value s :
  ¬ contains "$" value →
  replace_global token value s = substitute_literally token value s.
Proof. apply replace_go_plain. Qed.

End substitution.

(** C9: a string without the two tokens is returned unchanged, whatever the
    tenant and the domain; hence an output without tokens is a fixed point. *)
Theorem processExternalLink_no_placeholder :
  (∀ (window : Window) (s : string) (tenant domain : JsPrim),
     ¬ contains TENANT_TOKEN s → ¬ contains DOMAIN_TOKEN s →
     processExternalLink window (JsString s) tenant domain
     = Normal (JsP (JsString s))) ∧
  (∀ (window : Window) (link : JsValue) (out : string)
     (tenant domain tenant' domain' : JsPrim),
     processExternalLink window link tenant domain = Normal (JsP (JsString out)) →
     ¬ contains TENANT_TOKEN out → ¬ contains DOMAIN_TOKEN out →
     processExternalLink window (JsString out) tenant' domain'
     = Normal (JsP (JsString out))).
Proof.
  assert (∀ (window : Window) (s : string) (tenant domain : JsPrim),
     ¬ contains TENANT_TOKEN s → ¬ contains DOMAIN_TOKEN s →
     processExternalLink window (JsString s) tenant domain
     = Normal (JsP (JsString s))) as H.
  { intros window s tenant domain Ht Hd. unfold processExternalLink.
    destruct (_ || _); [done|].
    by rewrite (replace_global_absent _ _ _ Ht), (replace_global_absent _ _ _ Hd). }
  split; [done|]. intros window link out tenant domain tenant' domain' _.
  apply H.
Qed.

Lemma processExternalLink_no_placeholder_witness :
  processExternalLink {| location_hostname := "localhost" |}
    (JsString "https://docs.example.org/") (JsString "ramsay") JsNull
  = Normal (JsP (JsString "https://docs.example.org/")).
Proof.
  apply (proj1 processExternalLink_no_placeholder);
    apply indexOf_none; reflexivity.
Defined.

(** C7 at the tenant [cash$$]: the pair of dollar signs is read as a
    replacement pattern and comes out as one dollar sign, where literal
    substitution keeps both. *)
Theorem processExternalLink_dollar_tenant :
  ∀ window : Window,
    processExternalLink window (JsString "https://${TENANT}.${DOMAIN}/")
      (JsString "cash$$") (JsString "example.org")
    = Normal (JsP (JsString "https://cash$.example.org/")) ∧
    substitute_literally DOMAIN_TOKEN "example.org"
      (substitute_literally TENANT_TOKEN "cash$$" "https://${TENANT}.${DOMAIN}/")
    = "https://cash$$.example.org/".
Proof. done. Qed.

(** What does hold of C7: the falsy cases, the example, and literal
    substitution when neither value has a dollar sign. *)
Lemma processExternalLink_plain :
  (∀ (window : Window) (link : JsValue) (tenant domain : JsPrim),
     ToBoolean link = false ∨ ToBooleanPrim tenant = false →
     processExternalLink window link tenant domain = Normal link) ∧
  (∀ (window : Window) (link : string) (tenant domain : JsPrim),
     link ≠ "" → ToBooleanPrim tenant = true →
     ¬ contains "$" (ToString tenant) →
     ¬ contains "$" (ToString (target_domain window domain)) →
     processExternalLink window (JsString link) tenant domain
     = Normal (JsP (JsString
         (substitute_literally DOMAIN_TOKEN
            (ToString (target_domain window domain))
            (substitute_literally TENANT_TOKEN (ToString tenant) link))))) ∧
  (∀ window : Window,
     processExternalLink window (JsString "https://${TENANT}-mlflow.${DOMAIN}/")
       (JsString "ramsay") (JsString "cloud-tmp.physicsx.ai")
     = Normal (JsP (JsString "https://ramsay-mlflow.cloud-tmp.physicsx.ai/"))).
Proof.
  split; [|split; [|done]].
  - intros window link tenant domain H. unfold processExternalLink.
    by destruct H as [-> | ->]; [|rewrite orb_true_r].
  - intros window link tenant domain Hl Ht Hvt Hvd. unfold processExternalLink.
    rewrite Ht. cbn [ToBoolean]. rewrite (nonempty_truthy link Hl). cbn [negb orb].
    fold (target_domain window domain).
    by rewrite (replace_global_plain _ _ _ Hvt), (replace_global_plain _ _ _ Hvd).
Qed.

(** ** The list of external links *)

Section link_list.

Variable window : Window.
Variables tenant domain : JsPrim.

Lemma processExternalLink_string (s : string) :
  ∃ r, processExternalLink window (JsString s) tenant domain
       = Normal (JsP (JsString r)).
Proof. unfold processExternalLink. destruct (_ || _); eauto. Qed.

Lemma fresh_lookup (h : Heap) : h !! fresh (dom h) = None.
Proof. apply not_elem_of_dom, is_fresh. Qed.





End link_list.



(** * Further properties of the module *)

(** ** More on occurrences *)

Section occurrence_facts.

Implicit Types s t sub pre post : string.

Lemma contains_app_l sub s t : contains sub s → contains sub (s +:+ t).
Proof.
  intros (pre & post & ->). exists pre, (post +:+ t).
  by rewrite !string_app_assoc.
Qed.

Lemma contains_app_r sub s t : contains sub t → contains sub (s +:+ t).
Proof.
  intros (pre & post & ->). exists (s +:+ pre), post.
  by rewrite !string_app_assoc.
Qed.

Lemma not_contains_char_app c s t :
  ¬ contains (String c "") s → ¬ contains (String c "") t →
  ¬ contains (String c "") (s +:+ t).
Proof.
  induction s as [|d s IH]; [done|].
  intros [Hne Hs]%not_contains_char_cons Ht. simpl.
  apply not_contains_char_cons. split; [done|]. by apply IH.
Qed.

(** Two ways of cutting one string: the shorter prefix is a prefix of the
    longer one. *)
Lemma app_eq_shorter pre x t y :
  pre +:+ x = t +:+ y → (String.length pre < String.length t)%nat →
  ∃ e, t = pre +:+ e ∧ e ≠ "" ∧ x = e +:+ y.
Proof.
  revert t. induction pre as [|c pre IH]; intros t H Hlen.
  - exists t. split; [done|]. split; [|done]. intros ->. simpl in Hlen. lia.
  - destruct t as [|d t]; [simpl in Hlen; lia|].
    simpl in H. injection H as -> H.
    destruct (IH t H) as (e & -> & He & ->); [simpl in Hlen; lia|].
    by exists e.
Qed.

(** Nothing occurs in what precedes its own first occurrence. *)
Lemma first_occurrence_clean sub s pre :
  sub ≠ "" → first_occurrence sub s pre → ¬ contains sub pre.
Proof.
  intros Hsub [[post ->] Hmin] (pre' & post' & ->).
  assert (occurs_at sub ((pre' +:+ sub +:+ post') +:+ sub +:+ post) pre') as Hocc.
  { exists (post' +:+ sub +:+ post). by rewrite !string_app_assoc. }
  apply Hmin in Hocc. rewrite !string_app_length in Hocc.
  destruct sub; [done|]. simpl in Hocc. lia.
Qed.

(** After a text without [-kubeflow], an appended [-kubeflow] is the first
    occurrence: the word has no border with itself. *)
Lemma first_occurrence_appended_kubeflow t rest :
  ¬ contains "-kubeflow" t →
  first_occurrence "-kubeflow" (t +:+ "-kubeflow" +:+ rest) t.
Proof.
  intros Hno. split; [by exists rest|]. intros pre' [post' H].
  destruct (le_lt_dec (String.length t) (String.length pre')) as [|Hlt]; [done|].
  exfalso. symmetry in H.
  destruct (app_eq_shorter _ _ _ _ H Hlt) as (e & -> & He & Heq).
  destruct e as [|c e]; [done|].
  simpl in Heq. injection Heq as <- Heq.
  do 8 (destruct e as [|? e]; [simpl in Heq; discriminate|];
        simpl in Heq; injection Heq as <- Heq).
  apply Hno. by exists pre', e.
Qed.

(** What [truncate_at_kubeflow] cuts off is nothing, or starts with
    [-kubeflow]; what it keeps has no [-kubeflow]. *)
Lemma truncate_at_kubeflow_cut first :
  ∃ cut, first = truncate_at_kubeflow first +:+ cut ∧
         (cut = "" ∨ ∃ post, cut = "-kubeflow" +:+ post) ∧
         ¬ contains "-kubeflow" (truncate_at_kubeflow first).
Proof.
  destruct (Z.eq_dec (indexOf first "-kubeflow") (-1)) as [He|Hne].
  - pose proof He as Hno%indexOf_none.
    rewrite (truncate_no_kubeflow first Hno). exists "".
    split; [|split; [by left|done]].
    clear. induction first; simpl; congruence.
  - destruct (indexOf_first _ _ Hne) as (pre & Hpre & _).
    rewrite (truncate_first_kubeflow first pre Hpre).
    assert ("-kubeflow" ≠ "") as Hsub by done.
    pose proof (first_occurrence_clean _ _ _ Hsub Hpre) as Hclean.
    destruct Hpre as [[post ->] _]. exists ("-kubeflow" +:+ post).
    split; [done|]. split; [right; by exists post|done].
Qed.

End occurrence_facts.

(** ** More on the hostname parser *)

Section hostname_parser_more.

Implicit Types (v : JsValue) (s t first rest : string).

(** A tenant is returned only for a string with a dot, non-empty on both
    sides of its first dot; it is cut out of the first label. *)
Lemma extractTenant_string_inv v t :
  extractTenantFromHostname v = JsString t →
  ∃ first rest,
    v = JsP (JsString (first +:+ "." +:+ rest)) ∧ ¬ contains "." first ∧
    first ≠ "" ∧ rest ≠ "" ∧ t = truncate_at_kubeflow first.
Proof.
  intros H. destruct v as [[| | | |s]| |];
    try (rewrite extractTenant_not_string in H; done).
  destruct (contains_dec_char "." s) as [(first & rest & -> & Hfirst)|Hs].
  - change (String "." rest) with ("." +:+ rest) in *.
    rewrite (extractTenant_dotted first rest Hfirst) in H.
    exists first, rest. destruct first, rest; try done.
    simpl in H. injection H as <-. done.
  - by rewrite (extractTenant_undotted s Hs) in H.
Qed.

(** X1: [extractTenantFromHostname] returns [null] exactly when its argument
    is not a string, is a string without a dot, or is a string with nothing
    before or nothing after its first dot. *)
Theorem extractTenant_null_iff :
  ∀ v : JsValue,
    extractTenantFromHostname v = JsNull ↔
    (∀ s, v ≠ JsP (JsString s)) ∨
    (∃ s, v = JsP (JsString s) ∧ ¬ contains "." s) ∨
    (∃ first rest,
       v = JsP (JsString (first +:+ "." +:+ rest)) ∧ ¬ contains "." first ∧
       (first = "" ∨ rest = "")).
Proof.
  intros v. split.
  - intros H. destruct v as [[| | | |s]| |]; try (by left).
    right. destruct (contains_dec_char "." s) as [(first & rest & -> & Hfirst)|Hs].
    + right. exists first, rest.
      change (String "." rest) with ("." +:+ rest) in *.
      rewrite (extractTenant_dotted first rest Hfirst) in H.
      split; [done|]. split; [done|].
      destruct first; [by left|]. destruct rest; [by right|done].
    + left. by exists s.
  - intros [Hv|[(s & -> & Hs)|(first & rest & -> & Hfirst & Hor)]].
    + by apply extractTenant_not_string.
    + by apply extractTenant_undotted.
    + rewrite (extractTenant_dotted first rest Hfirst).
      by destruct Hor as [-> | ->]; [|rewrite orb_true_r].
Qed.

Lemma extractTenant_null_iff_witness :
  extractTenantFromHostname (JsString ("" +:+ "." +:+ "example.org")) = JsNull.
Proof.
  apply (proj2 (extractTenant_null_iff _)). right. right.
  exists "", "example.org". split; [reflexivity|].
  split; [apply indexOf_none; reflexivity|]. by left.
Defined.

(** X2: [extractTenantFromHostname] returns the empty string exactly on the
    strings whose first label starts with [-kubeflow] and whose first dot is
    followed by something. *)
Theorem extractTenant_empty_iff :
  ∀ v : JsValue,
    extractTenantFromHostname v = JsString "" ↔
    ∃ label rest,
      v = JsP (JsString (("-kubeflow" +:+ label) +:+ "." +:+ rest)) ∧
      ¬ contains "." label ∧ rest ≠ "".
Proof.
  intros v. split.
  - intros (first & rest & -> & Hfirst & Hne & Hrest & Ht)%extractTenant_string_inv.
    destruct (truncate_at_kubeflow_cut first) as (cut & Hcut & Hor & _).
    rewrite <- Ht in Hcut. simpl in Hcut. subst cut.
    destruct Hor as [->|[label ->]]; [done|].
    exists label, rest. split; [done|]. split; [|done].
    intros Hl. apply Hfirst. by apply contains_app_r.
  - intros (label & rest & -> & Hlabel & Hrest).
    assert (¬ contains "." ("-kubeflow" +:+ label)) as Hfirst.
    { apply not_contains_char_app; [|done]. apply indexOf_none. reflexivity. }
    rewrite (extractTenant_dotted _ rest Hfirst).
    replace (String.eqb rest "") with false by (by destruct rest).
    cbn [String.append String.eqb Ascii.eqb Bool.eqb orb]. f_equal.
    apply truncate_first_kubeflow. split; [by exists label|]. simpl. lia.
Qed.

Lemma extractTenant_empty_iff_witness :
  extractTenantFromHostname
    (JsString (("-kubeflow" +:+ "-eu") +:+ "." +:+ "example.org"))
  = JsString "".
Proof.
  apply (proj2 (extractTenant_empty_iff _)).
  exists "-eu", "example.org". split; [reflexivity|].
  split; [apply indexOf_none; reflexivity|discriminate].
Defined.

(** X3: a tenant returned by [extractTenantFromHostname] contains neither a
    dot nor [-kubeflow]. *)
Theorem extractTenant_clean :
  ∀ (v : JsValue) (t : string),
    extractTenantFromHostname v = JsString t →
    ¬ contains "." t ∧ ¬ contains "-kubeflow" t.
Proof.
  intros v t (first & rest & -> & Hfirst & _ & _ & ->)%extractTenant_string_inv.
  destruct (truncate_at_kubeflow_cut first) as (cut & Hcut & _ & Hclean).
  split; [|done]. intros Hdot. apply Hfirst. rewrite Hcut.
  by apply contains_app_l.
Qed.

Lemma extractTenant_clean_witness :
  ¬ contains "." "demo-dev" ∧ ¬ contains "-kubeflow" "demo-dev".
Proof.
  apply (extractTenant_clean
           (JsString "demo-dev-kubeflow-2.cloud-tmp.physicsx.ai") "demo-dev").
  reflexivity.
Defined.

(** X4: the hostname of the dashboard, [T-kubeflow....D], and the hostname
    of the tenant, [T.D], give the same tenant [T], when [T] is non-empty
    and has neither a dot nor [-kubeflow]. *)
Theorem extractTenant_kubeflow_alias :
  ∀ T suffix D : string,
    T ≠ "" → ¬ contains "." T → ¬ contains "-kubeflow" T →
    ¬ contains "." suffix → D ≠ "" →
    extractTenantFromHostname
      (JsString ((T +:+ "-kubeflow" +:+ suffix) +:+ "." +:+ D))
    = JsString T ∧
    extractTenantFromHostname (JsString (T +:+ "." +:+ D)) = JsString T.
Proof.
  intros T suffix D HT Hdot Hk Hsuffix HD.
  assert (¬ contains "." (T +:+ "-kubeflow" +:+ suffix)) as Hfirst.
  { apply not_contains_char_app; [done|].
    apply not_contains_char_app; [|done]. apply indexOf_none. reflexivity. }
  rewrite (extractTenant_dotted _ D Hfirst), (extractTenant_dotted T D Hdot).
  replace (String.eqb D "") with false by (by destruct D).
  replace (String.eqb T "") with false by (by destruct T).
  replace (String.eqb (T +:+ "-kubeflow" +:+ suffix) "") with false
    by (by destruct T).
  cbn [orb]. split; f_equal.
  - apply truncate_first_kubeflow. by apply first_occurrence_appended_kubeflow.
  - by apply truncate_no_kubeflow.
Qed.

Lemma extractTenant_kubeflow_alias_witness :
  extractTenantFromHostname
    (JsString (("demo-dev" +:+ "-kubeflow" +:+ "-v2") +:+ "." +:+ "example.org"))
  = JsString "demo-dev" ∧
  extractTenantFromHostname (JsString ("demo-dev" +:+ "." +:+ "example.org"))
  = JsString "demo-dev".
Proof.
  apply (extractTenant_kubeflow_alias "demo-dev" "-v2" "example.org");
    try discriminate; apply indexOf_none; reflexivity.
Defined.

(** X5: when the page has a tenant, its hostname is the tenant, then nothing
    or a remainder of the first label that starts with [-kubeflow], then a
    dot, then the current domain, which is not empty. *)
Theorem current_tenant_and_domain_rebuild_hostname :
  ∀ (window : Window) (t : string),
    getCurrentTenant window = JsString t →
    ∃ cut,
      location_hostname window = t +:+ cut +:+ "." +:+ getCurrentDomain window ∧
      (cut = "" ∨ ∃ post, cut = "-kubeflow" +:+ post) ∧
      ¬ contains "." cut ∧
      getCurrentDomain window ≠ "".
Proof.
  intros [hostname] t. unfold getCurrentTenant, getCurrentDomain.
  cbn [location_hostname].
  intros (first & rest & [= ->] & Hfirst & _ & Hrest & ->)%extractTenant_string_inv.
  change (String "." rest) with ("." +:+ rest).
  rewrite (extractDomain_dotted first rest Hfirst).
  destruct (truncate_at_kubeflow_cut first) as (cut & Hcut & Hor & _).
  exists cut. split; [|split; [done|split; [|done]]].
  - by rewrite <- (string_app_assoc (truncate_at_kubeflow first) cut), <- Hcut.
  - intros Hdot. apply Hfirst. rewrite Hcut. by apply contains_app_r.
Qed.

Lemma current_tenant_and_domain_rebuild_hostname_witness :
  ∃ cut,
    "ramsay-kubeflow.cloud-tmp.physicsx.ai"
    = "ramsay" +:+ cut +:+ "." +:+
      getCurrentDomain {| location_hostname := "ramsay-kubeflow.cloud-tmp.physicsx.ai" |} ∧
    (cut = "" ∨ ∃ post, cut = "-kubeflow" +:+ post) ∧
    ¬ contains "." cut ∧
    getCurrentDomain {| location_hostname := "ramsay-kubeflow.cloud-tmp.physicsx.ai" |}
    ≠ "".
Proof.
  apply (current_tenant_and_domain_rebuild_hostname
           {| location_hostname := "ramsay-kubeflow.cloud-tmp.physicsx.ai" |}
           "ramsay").
  reflexivity.
Defined.

(** X6: [extractDomainFromHostname] returns the empty string exactly on the
    strings that end with their first dot. *)
Theorem extractDomain_empty_iff :
  ∀ v : JsValue,
    extractDomainFromHostname v = "" ↔
    ∃ first, v = JsP (JsString (first +:+ ".")) ∧ ¬ contains "." first.
Proof.
  intros v. split.
  - intros H. destruct v as [[| | | |s]| |];
      try (rewrite extractDomain_not_string in H; done).
    destruct (contains_dec_char "." s) as [(first & rest & -> & Hfirst)|Hs].
    + change (String "." rest) with ("." +:+ rest) in *.
      rewrite (extractDomain_dotted first rest Hfirst) in H. subst rest.
      by exists first.
    + by rewrite (extractDomain_undotted s Hs) in H.
  - intros (first & -> & Hfirst).
    by apply (extractDomain_dotted first "").
Qed.

Lemma extractDomain_empty_iff_witness :
  extractDomainFromHostname (JsString ("localhost" +:+ ".")) = "".
Proof.
  apply (proj2 (extractDomain_empty_iff _)).
  exists "localhost". split; [reflexivity|apply indexOf_none; reflexivity].
Defined.

End hostname_parser_more.

(** ** More on the service URL generator *)

Section generator_more.

Implicit Types (window : Window) (serviceName tenant domain : JsPrim).

(** On a string identifier the generator completes normally. *)
Lemma generateServiceUrl_string window s tenant domain :
  generateServiceUrl window (JsString s) tenant domain = ([], Normal JsNull) ∨
  (∃ url, generateServiceUrl window (JsString s) tenant domain
          = ([], Normal (JsString url))) ∨
  generateServiceUrl window (JsString s) tenant domain
  = (["Unknown service: " +:+ s], Normal JsNull).
Proof.
  destruct (ToBooleanPrim tenant) eqn:Ht;
    [|left; apply generateServiceUrl_falsy; by left].
  destruct (String.eqb_spec s "") as [->|Hs];
    [left; apply generateServiceUrl_falsy; by right|].
  destruct (matches_entry_dec s) as [(key & d & Hm)|Hm].
  - right. left. eexists. by apply generateServiceUrl_matched with key.
  - right. right. by apply generateServiceUrl_unmatched.
Qed.



(** X8: [generateServiceUrl] writes at most one warning, and only
    [Unknown service: ] followed by the identifier as it was passed, together
    with the result [null]; the warning about an unknown format is never
    written. *)
Theorem generateServiceUrl_warnings :
  ∀ window serviceName tenant domain,
    (fst (generateServiceUrl window serviceName tenant domain) = [] ∨
     ∃ s, serviceName = JsString s ∧
          generateServiceUrl window serviceName tenant domain
          = (["Unknown service: " +:+ s], Normal JsNull)) ∧
    ∀ msg x,
      In msg (fst (generateServiceUrl window serviceName tenant domain)) →
      msg ≠ "Unknown service format: " +:+ x.
Proof.
  intros window serviceName tenant domain.
  assert (fst (generateServiceUrl window serviceName tenant domain) = [] ∨
     ∃ s, serviceName = JsString s ∧
          generateServiceUrl window serviceName tenant domain
          = (["Unknown service: " +:+ s], Normal JsNull)) as H.
  { destruct serviceName as [| | | |s];
      try (left; unfold generateServiceUrl; by destruct (_ || _)).
    destruct (generateServiceUrl_string window s tenant domain)
      as [H|[[url H]|H]]; rewrite H; eauto. }
  split; [done|]. intros msg x Hin.
  destruct H as [H|(s & -> & H)]; rewrite H in Hin; [done|].
  destruct Hin as [<-|[]]. discriminate.
Qed.

Lemma upcase_idem c : upcase (upcase c) = upcase c.
Proof. unfold upcase at 1. by rewrite upcase_not_lower. Qed.

Lemma upcase_ignore_case c d :
  eqb_char_ignore_case c d = true → upcase c = upcase d.
Proof.
  unfold eqb_char_ignore_case.
  intros [[H|[_ H]%andb_prop]%orb_prop|[_ H]%andb_prop]%orb_prop;
    apply Ascii.eqb_eq in H as ->; by rewrite ?upcase_idem.
Qed.

Lemma toUpperCase_ignore_case s s' :
  eqb_ignore_case s s' = true → toUpperCase s = toUpperCase s'.
Proof.
  revert s'. induction s as [|c s IH]; intros [|d s']; simpl; try done.
  intros [Hc Hs]%andb_prop. f_equal; [by apply upcase_ignore_case|by apply IH].
Qed.

(** X9: the result of [generateServiceUrl] does not depend on the case of
    the letters of the identifier, matched or not (the text of the warning
    does: it quotes the identifier). *)
Theorem generateServiceUrl_case_insensitive :
  ∀ window (s s' : string) tenant domain,
    eqb_ignore_case s s' = true →
    snd (generateServiceUrl window (JsString s) tenant domain)
    = snd (generateServiceUrl window (JsString s') tenant domain).
Proof.
  intros window s s' tenant domain H.
  pose proof (toUpperCase_ignore_case s s' H) as Hup.
  unfold generateServiceUrl. rewrite Hup.
  assert (ToBooleanPrim (JsString s) = ToBooleanPrim (JsString s')) as ->
    by (by destruct s, s').
  destruct (_ || _); [done|].
  destruct (SERVICE_CONFIG_get (toUpperCase s')); [|done].
  repeat case_decide; done.
Qed.

Lemma generateServiceUrl_case_insensitive_witness :
  snd (generateServiceUrl {| location_hostname := "localhost" |}
         (JsString "Sim_Workbench") (JsString "acme") (JsString "example.org"))
  = snd (generateServiceUrl {| location_hostname := "localhost" |}
           (JsString "sim_workBENCH") (JsString "acme") (JsString "example.org")).
Proof.
  apply (generateServiceUrl_case_insensitive _ "Sim_Workbench" "sim_workBENCH").
  reflexivity.
Defined.

(** X10: with a falsy tenant [generateAllServiceUrls] still returns the six
    entries, all of them [null]; with any tenant and domain it neither throws
    nor writes a warning. *)
Theorem generateAllServiceUrls_total :
  (∀ window tenant domain,
     ∃ urls : gmap string JsPrim,
       generateAllServiceUrls window tenant domain = ([], Normal urls)) ∧
  (∀ window tenant domain,
     ToBooleanPrim tenant = false →
     ∃ urls : gmap string JsPrim,
       generateAllServiceUrls window tenant domain = ([], Normal urls) ∧
       size urls = 6%nat ∧
       ∀ n, n ∈ display_names → urls !! n = Some JsNull).
Proof.
  split.
  - intros. eexists. apply generateAllServiceUrls_spec.
  - intros window tenant domain Ht. eexists.
    split; [apply generateAllServiceUrls_spec|].
    unfold entry_value. rewrite Ht. split; [by vm_compute|].
    intros n Hn. unfold display_names in Hn. cbn in Hn.
    repeat (apply elem_of_cons in Hn as [->|Hn]; [by vm_compute|]).
    by apply elem_of_nil in Hn.
Qed.

Lemma generateAllServiceUrls_total_witness :
  ∃ urls : gmap string JsPrim,
    generateAllServiceUrls {| location_hostname := "localhost" |}
      JsNull (JsString "example.org") = ([], Normal urls) ∧
    size urls = 6%nat ∧
    ∀ n, n ∈ display_names → urls !! n = Some JsNull.
Proof.
  apply (proj2 generateAllServiceUrls_total). reflexivity.
Defined.

(** X11: with the tenant of the page and no domain argument, the URL of a
    tenant-subdomain service is on the page's own host, when the first label
    of the hostname has no [-kubeflow]. *)
Theorem generateServiceUrl_on_own_host :
  ∀ (first rest key : string) (d : ServiceDescriptor),
    first ≠ "" → rest ≠ "" → ¬ contains "." first →
    ¬ contains "-kubeflow" first →
    In (key, d) SERVICE_CONFIG → format d = "tenant-subdomain" →
    let window := {| location_hostname := first +:+ "." +:+ rest |} in
    generateServiceUrl window (JsString key) (getCurrentTenant window) JsNull
    = ([], Normal (JsString
         ("https://" +:+ location_hostname window +:+ path d))).
Proof.
  intros first rest key d Hfirst Hrest Hdot Hk Hin Hf window.
  unfold getCurrentTenant. subst window. cbn [location_hostname].
  rewrite (extractTenant_dotted first rest Hdot).
  replace (String.eqb first "") with false by (by destruct first).
  replace (String.eqb rest "") with false by (by destruct rest).
  cbn [orb]. rewrite (truncate_no_kubeflow first Hk).
  rewrite (generateServiceUrl_matched _ key (JsString first) JsNull key d);
    [|by apply nonempty_truthy|by apply matches_entry_key].
  unfold service_url, target_domain, getCurrentDomain, tenant_subdomain_url.
  cbn [location_hostname or_else ToBooleanPrim ToString].
  rewrite (extractDomain_dotted first rest Hdot), Hf.
  cbn [String.eqb Ascii.eqb Bool.eqb]. do 3 f_equal.
  by rewrite !string_app_assoc.
Qed.

Lemma generateServiceUrl_on_own_host_witness :
  generateServiceUrl
    {| location_hostname := "ramsay" +:+ "." +:+ "cloud-tmp.physicsx.ai" |}
    (JsString "PLATFORM_DOCS")
    (getCurrentTenant
       {| location_hostname := "ramsay" +:+ "." +:+ "cloud-tmp.physicsx.ai" |})
    JsNull
  = ([], Normal (JsString
       ("https://" +:+ ("ramsay" +:+ "." +:+ "cloud-tmp.physicsx.ai")
        +:+ "/documentation/"))).
Proof.
  apply (generateServiceUrl_on_own_host "ramsay" "cloud-tmp.physicsx.ai"
           "PLATFORM_DOCS"
           {| name := "platform-docs"; format := "tenant-subdomain";
              path := "/documentation/" |});
    try discriminate; try (apply indexOf_none; reflexivity);
    [simpl; tauto | reflexivity].
Defined.

End generator_more.

(** ** More on placeholder substitution *)

Section substitution_more.

Implicit Types s token value before rest : string.

Lemma string_app_nil_r s : s +:+ "" = s.
Proof. induction s; simpl; congruence. Qed.

Lemma string_app_eq_nil s t : s +:+ t = "" → s = "" ∧ t = "".
Proof. by destruct s. Qed.

(** A text without a dollar sign is passed over: no token starts in it. *)
Lemma replace_go_text token token' value before s rest :
  token = String "$" token' → ¬ contains "$" s →
  replace_go token value before 0 (s +:+ rest)
  = s +:+ replace_go token value (before +:+ s) 0 rest.
Proof.
  intros ->. revert before. induction s as [|c s IH]; intros before Hs.
  - by rewrite string_app_nil_r.
  - apply not_contains_char_cons in Hs as [Hc Hs]. simpl String.append.
    cbn [replace_go].
    replace (String.prefix (String "$" token') (String c (s +:+ rest)))
      with false.
    + rewrite (IH _ Hs). by rewrite string_app_assoc.
    + symmetry. apply prefix_false. intros [post H]. simpl in H. congruence.
Qed.

(** The rest of a match is skipped. *)
Lemma replace_go_skip token value before s rest :
  replace_go token value before (String.length s) (s +:+ rest)
  = replace_go token value (before +:+ s) 0 rest.
Proof.
  revert before. induction s as [|c s IH]; intros before.
  - by rewrite string_app_nil_r.
  - simpl String.length. simpl String.append. cbn [replace_go].
    rewrite IH. by rewrite string_app_assoc.
Qed.

(** At a token, the expansion of the replacement is written and the scan
    goes on after the token. *)
Lemma replace_go_token token value before rest :
  token ≠ "" →
  replace_go token value before 0 (token +:+ rest)
  = GetSubstitution token before rest value
    +:+ replace_go token value (before +:+ token) 0 rest.
Proof.
  intros Ht. destruct token as [|c token]; [done|].
  simpl String.append at 1. cbn [replace_go].
  replace (String.prefix (String c token) (String c (token +:+ rest))) with true
    by (symmetry; apply prefix_spec; by exists rest).
  change (String c (token +:+ rest)) with (String c token +:+ rest).
  rewrite substring_from_suffix. f_equal.
  simpl String.length. rewrite Nat.sub_succ, Nat.sub_0_r.
  rewrite replace_go_skip. by rewrite string_app_assoc.
Qed.

(** The first pass, over the tenant placeholders. *)
Lemma replace_tenant_render tenant before template :
  Forall plain_text template → ¬ contains "$" tenant →
  replace_go TENANT_TOKEN tenant before 0
    (render TENANT_TOKEN DOMAIN_TOKEN template)
  = render tenant DOMAIN_TOKEN template.
Proof.
  intros Htemplate Ht. revert before.
  induction Htemplate as [|[s| |] template Hs _ IH]; intros before; [done|..];
    cbn [render].
  - by rewrite (replace_go_text _ "{TENANT}" _ _ _ _ eq_refl Hs), IH.
  - rewrite replace_go_token by done.
    by rewrite (GetSubstitution_plain _ _ _ _ Ht), IH.
  - assert (¬ contains "$" "{DOMAIN}") as Hd by (apply indexOf_none; reflexivity).
    change (DOMAIN_TOKEN +:+ render TENANT_TOKEN DOMAIN_TOKEN template)
      with (String "$" ("{DOMAIN}" +:+ render TENANT_TOKEN DOMAIN_TOKEN template)).
    cbn [replace_go].
    replace (String.prefix TENANT_TOKEN _) with false
      by (symmetry; apply prefix_false; intros [post H]; discriminate).
    by rewrite (replace_go_text _ "{TENANT}" _ _ _ _ eq_refl Hd), IH.
Qed.

(** The second pass, over the domain placeholders. *)
Lemma replace_domain_render tenant domain before template :
  Forall plain_text template → ¬ contains "$" tenant → ¬ contains "$" domain →
  replace_go DOMAIN_TOKEN domain before 0 (render tenant DOMAIN_TOKEN template)
  = render tenant domain template.
Proof.
  intros Htemplate Ht Hd. revert before.
  induction Htemplate as [|[s| |] template Hs _ IH]; intros before; [done|..];
    cbn [render].
  - by rewrite (replace_go_text _ "{DOMAIN}" _ _ _ _ eq_refl Hs), IH.
  - by rewrite (replace_go_text _ "{DOMAIN}" _ _ _ _ eq_refl Ht), IH.
  - rewrite replace_go_token by done.
    by rewrite (GetSubstitution_plain _ _ _ _ Hd), IH.
Qed.

Lemma render_empty tenant domain template :
  render TENANT_TOKEN DOMAIN_TOKEN template = "" →
  render tenant domain template = "".
Proof.
  induction template as [|[s| |] template IH]; cbn [render]; try done.
  intros [-> H]%string_app_eq_nil. by apply IH.
Qed.

End substitution_more.

(** X12: on a link template whose texts have no dollar sign, with a truthy
    tenant and with tenant and domain values without a dollar sign,
    [processExternalLink] returns the template with the tenant at every
    [${TENANT}] and the domain at every [${DOMAIN}]. *)
Theorem processExternalLink_template :
  ∀ (window : Window) (template : list Segment) (tenant domain : JsPrim),
    ToBooleanPrim tenant = true →
    Forall plain_text template →
    ¬ contains "$" (ToString tenant) →
    ¬ contains "$" (ToString (target_domain window domain)) →
    processExternalLink window
      (JsString (render TENANT_TOKEN DOMAIN_TOKEN template)) tenant domain
    = Normal (JsP (JsString
        (render (ToString tenant) (ToString (target_domain window domain))
           template))).
Proof.
  intros window template tenant domain Ht Htemplate Htv Hdv.
  unfold processExternalLink. rewrite Ht. cbn [ToBoolean ToBooleanPrim].
  destruct (String.eqb_spec (render TENANT_TOKEN DOMAIN_TOKEN template) "")
    as [He|_]; cbn [negb orb].
  - by rewrite He, (render_empty _ _ _ He).
  - fold (target_domain window domain). unfold replace_global.
    by rewrite replace_tenant_render, replace_domain_render.
Qed.

Lemma processExternalLink_template_witness :
  processExternalLink {| location_hostname := "localhost" |}
    (JsString (render TENANT_TOKEN DOMAIN_TOKEN
                 [Text "https://"; TenantPlaceholder; Text "-mlflow.";
                  DomainPlaceholder; Text "/?next="; TenantPlaceholder]))
    (JsString "ramsay") (JsString "cloud-tmp.physicsx.ai")
  = Normal (JsP (JsString
      (render (ToString (JsString "ramsay"))
         (ToString (target_domain {| location_hostname := "localhost" |}
                      (JsString "cloud-tmp.physicsx.ai")))
         [Text "https://"; TenantPlaceholder; Text "-mlflow.";
          DomainPlaceholder; Text "/?next="; TenantPlaceholder]))).
Proof.
  apply processExternalLink_template.
  - reflexivity.
  - repeat constructor; apply indexOf_none; reflexivity.
  - apply indexOf_none. reflexivity.
  - apply indexOf_none. reflexivity.
Defined.



(** ** More on the list of external links *)

Section link_list_more.

Implicit Types (window : Window) (tenant domain : JsPrim) (h : Heap).

Lemma Array_map_ext (f g : JsValue → Heapful JsValue) elems h :
  (∀ e h', f e h' = g e h') → Array_map f elems h = Array_map g elems h.
Proof.
  intros Hfg. revert h. induction elems as [|e elems IH]; intros h; [done|].
  cbn [Array_map]. rewrite Hfg. destruct (g e h) as [h1 [v|err]]; [|done].
  by rewrite IH.
Qed.

Lemma Array_map_app (f : JsValue → Heapful JsValue) xs ys h :
  Array_map f (xs ++ ys) h =
  match Array_map f xs h with
  | (h1, Throw err) => (h1, Throw err)
  | (h1, Normal vs) =>
      match Array_map f ys h1 with
      | (h2, Throw err) => (h2, Throw err)
      | (h2, Normal ws) => (h2, Normal (vs ++ ws))
      end
  end.
Proof.
  revert h. induction xs as [|x xs IH]; intros h.
  - cbn [app Array_map]. by destruct (Array_map f ys h) as [h2 [ws|err]].
  - cbn [app Array_map]. destruct (f x h) as [h1 [v|err]]; [|done].
    rewrite IH. destruct (Array_map f xs h1) as [h2 [vs|err]]; [|done].
    by destruct (Array_map f ys h2) as [h3 [ws|err]].
Qed.

(** The callback only allocates: the heap it leaves extends the heap it
    found, whatever the element and the outcome. *)
Lemma callback_extends window tenant domain e h h' r :
  processExternalLinks_callback window tenant domain e h = (h', r) → h ⊆ h'.
Proof.
  unfold processExternalLinks_callback, Object_assign_fresh, set_link.
  pose proof (fresh_lookup h) as Hfresh.
  destruct (get_link _ e) as [v|err];
    [destruct (processExternalLink window v tenant domain) as [v'|err]|];
    intros [= <- _]; cbn [fst]; rewrite ?insert_insert_eq;
    by apply insert_subseteq.
Qed.

Lemma Array_map_extends (f : JsValue → Heapful JsValue) elems h h' r :
  (∀ e h1 h2 r', f e h1 = (h2, r') → h1 ⊆ h2) →
  Array_map f elems h = (h', r) → h ⊆ h'.
Proof.
  intros Hf. revert h r. induction elems as [|e elems IH]; intros h r.
  - by intros [= <- _].
  - cbn [Array_map]. destruct (f e h) as [h1 [v|err]] eqn:He.
    + destruct (Array_map f elems h1) as [h2 [vs|err]] eqn:Hmap;
        intros [= <- _]; (trans h1; [by eapply Hf|by eapply IH]).
    + intros [= <- _]. by eapply Hf.
Qed.

(** The callback on a record whose [link] is absent, falsy or a string. *)
Lemma callback_loose_record window tenant domain h h1 l fields :
  h ⊆ h1 → h !! l = Some (HObject fields) →
  (fields !! "link" = None ∨
   ∃ p : JsPrim, fields !! "link" = Some (JsP p) ∧
                 (ToBooleanPrim p = false ∨ ∃ s, p = JsString s)) →
  ∃ link',
    processExternalLink window (default (JsP JsUndefined) (fields !! "link"))
      tenant domain = Normal link' ∧
    (¬ (∃ s, fields !! "link" = Some (JsP (JsString s))) →
     link' = default (JsP JsUndefined) (fields !! "link")) ∧
    processExternalLinks_callback window tenant domain (JsRef l) h1
    = (<[fresh (dom h1) := HObject (<["link" := link']> fields)]> h1,
       Normal (JsRef (fresh (dom h1)))).
Proof.
  intros Hsub Hl Hlink.
  assert (∃ link',
    processExternalLink window (default (JsP JsUndefined) (fields !! "link"))
      tenant domain = Normal link' ∧
    (¬ (∃ s, fields !! "link" = Some (JsP (JsString s))) →
     link' = default (JsP JsUndefined) (fields !! "link")))
    as (link' & Hp & Hsame).
  { destruct Hlink as [->|(p & -> & [Hp|[s ->]])]; cbn [default from_option id].
    - by eexists.
    - eexists. split; [|done]. unfold processExternalLink. cbn [ToBoolean].
      by rewrite Hp.
    - destruct (processExternalLink_string window tenant domain s) as [r Hr].
      eexists. split; [done|]. intros []. by exists s. }
  exists link'. split; [done|]. split; [done|].
  pose proof (lookup_weaken _ _ _ _ Hl Hsub) as Hl1.
  assert (fresh (dom h1) ≠ l) as Hne.
  { intros He. pose proof (fresh_lookup h1) as Hf. rewrite He in Hf. congruence. }
  unfold processExternalLinks_callback, Object_assign_fresh, get_link, set_link.
  cbn [own_enumerable fst]. rewrite Hl1.
  rewrite (lookup_insert_ne _ _ _ _ Hne), Hl1, Hp.
  by rewrite lookup_insert_eq, insert_insert_eq.
Qed.

(** [map] over such records: the copies are new, pairwise distinct
    objects. *)
Lemma Array_map_loose_records window tenant domain h (elems : list JsValue) :
  Forall (loose_record h) elems →
  ∀ h1 : Heap, h ⊆ h1 →
  ∃ (h2 : Heap) (vs : list JsValue),
    Array_map (processExternalLinks_callback window tenant domain) elems h1
    = (h2, Normal vs) ∧
    h1 ⊆ h2 ∧
    length vs = length elems ∧
    NoDup vs ∧
    (∀ v, v ∈ vs → ∃ l', v = JsRef l' ∧ (l' ∉ dom h1) ∧ l' ∈ dom h2) ∧
    ∀ i l fields,
      elems !! i = Some (JsRef l) → h !! l = Some (HObject fields) →
      ∃ l' link',
        vs !! i = Some (JsRef l') ∧
        h2 !! l' = Some (HObject (<["link" := link']> fields)) ∧
        processExternalLink window (default (JsP JsUndefined) (fields !! "link"))
          tenant domain = Normal link' ∧
        (¬ (∃ s, fields !! "link" = Some (JsP (JsString s))) →
         link' = default (JsP JsUndefined) (fields !! "link")).
Proof.
  induction 1 as [|e elems He _ IH]; intros h1 Hsub.
  - exists h1, []. repeat split; try done; [constructor|by intros v ?%elem_of_nil].
  - destruct He as (l & fields & -> & Hl & Hlink).
    destruct (callback_loose_record window tenant domain h h1 l fields Hsub Hl Hlink)
      as (link' & Hp & Hsame & Hcb).
    set (l' := fresh (dom h1)) in *.
    set (h1' := <[l' := HObject (<["link" := link']> fields)]> h1) in *.
    assert (h1 ⊆ h1') as Hsub1 by apply insert_subseteq, fresh_lookup.
    assert (l' ∈ dom h1') as Hl'.
    { apply elem_of_dom. eexists. apply lookup_insert_eq. }
    destruct (IH h1') as (h2 & vs & Hmap & Hsub2 & Hlen & Hnd & Hfresh & Hvs);
      [by trans h1|].
    exists h2, (JsRef l' :: vs). split; [|split; [|split; [|split; [|split]]]].
    + cbn [Array_map]. by rewrite Hcb, Hmap.
    + by trans h1'.
    + simpl. by rewrite Hlen.
    + constructor; [|done]. intros (l'' & [= <-] & Hnot & _)%Hfresh. done.
    + intros v [->|Hv]%elem_of_cons.
      * exists l'. split; [done|]. split; [apply is_fresh|].
        by apply (subseteq_dom _ _ Hsub2).
      * destruct (Hfresh v Hv) as (l'' & -> & Hnot & Hin).
        exists l''. split; [done|]. split; [|done].
        intros Hin1. apply Hnot. by apply (subseteq_dom _ _ Hsub1).
    + intros [|i] l0 fields0 Hi Hl0.
      * injection Hi as <-. rewrite Hl in Hl0. injection Hl0 as <-.
        exists l', link'. split; [done|]. split; [|done].
        eapply lookup_weaken; [|exact Hsub2]. apply lookup_insert_eq.
      * by apply (Hvs i l0 fields0).
Qed.

(** The callback throws on [null], on [undefined] and on a record whose
    [link] is a truthy primitive other than a string. *)
Lemma callback_throws window tenant domain h h1 e :
  ToBooleanPrim tenant = true → h ⊆ h1 → throwing_element h e →
  ∃ h2 err,
    processExternalLinks_callback window tenant domain e h1 = (h2, Throw err).
Proof.
  intros Ht Hsub [->|[->|(l & fields & p & -> & Hl & Hlink & Hp & Hn)]];
    [by eexists _, _..|].
  pose proof (lookup_weaken _ _ _ _ Hl Hsub) as Hl1.
  assert (fresh (dom h1) ≠ l) as Hne.
  { intros He. pose proof (fresh_lookup h1) as Hf. rewrite He in Hf. congruence. }
  unfold processExternalLinks_callback, Object_assign_fresh, get_link.
  rewrite (lookup_insert_ne _ _ _ _ Hne), Hl1, Hlink. cbn [default from_option id].
  unfold processExternalLink. cbn [ToBoolean]. rewrite Hp, Ht. cbn [negb orb].
  destruct p as [| | | |s]; try by eexists _, _. by destruct (Hn s).
Qed.

Lemma processExternalLinks_loose_records window tenant domain h a elems :
  h !! a = Some (HArray elems) → ToBooleanPrim tenant = true →
  Forall (loose_record h) elems →
  ∃ (h' : Heap) a' (elems' : list JsValue),
    processExternalLinks window (JsRef a) tenant domain h
    = (h', Normal (JsRef a')) ∧
    h' !! a' = Some (HArray elems') ∧
    length elems' = length elems ∧
    NoDup elems' ∧
    (∀ v, v ∈ elems' → ∃ l', v = JsRef l' ∧ l' ≠ a' ∧ l' ∉ dom h) ∧
    (∀ i l fields,
       elems !! i = Some (JsRef l) → h !! l = Some (HObject fields) →
       ¬ (∃ s, fields !! "link" = Some (JsP (JsString s))) →
       ∃ l',
         elems' !! i = Some (JsRef l') ∧
         h' !! l' = Some (HObject
           (<["link" := default (JsP JsUndefined) (fields !! "link")]> fields))).
Proof.
  intros Ha Ht Hrec.
  set (a' := fresh (dom h)). set (h0 := <[a' := HArray []]> h).
  assert (h ⊆ h0) as Hsub0 by apply insert_subseteq, fresh_lookup.
  assert (a' ∈ dom h0) as Ha'.
  { apply elem_of_dom. eexists. apply lookup_insert_eq. }
  destruct (Array_map_loose_records window tenant domain h elems Hrec h0 Hsub0)
    as (h1 & vs & Hmap & Hsub1 & Hlen & Hnd & Hfresh & Hvs).
  exists (<[a' := HArray vs]> h1), a', vs.
  split; [|split; [|split; [|split; [|split]]]]; try done.
  - unfold processExternalLinks. cbn [isArray]. rewrite Ha, Ht. cbn [negb orb].
    fold a'. fold h0. by rewrite Hmap.
  - apply lookup_insert_eq.
  - intros v Hv. destruct (Hfresh v Hv) as (l' & -> & Hnot & _).
    exists l'. split; [done|]. split; [by intros ->|].
    intros Hin. apply Hnot. by apply (subseteq_dom _ _ Hsub0).
  - intros i l fields Hi Hl Hns.
    destruct (Hvs i l fields Hi Hl) as (l' & link' & Hv & Hl' & _ & Hsame).
    exists l'. split; [done|]. rewrite <- (Hsame Hns).
    rewrite lookup_insert_ne; [done|]. intros <-.
    destruct (Hfresh (JsRef a')) as (l'' & [= <-] & Hnot & _); [|done].
    apply list_elem_of_lookup. by exists i.
Qed.

End link_list_more.

(** X14: with a truthy [domain] argument the hostname of the page is not
    consulted: the four functions give the same outcome on any two pages. *)
Theorem truthy_domain_ignores_hostname :
  ∀ (window window' : Window) (serviceName tenant domain : JsPrim)
    (link externalLinks : JsValue) (h : Heap),
    ToBooleanPrim domain = true →
    generateServiceUrl window serviceName tenant domain
    = generateServiceUrl window' serviceName tenant domain ∧
    generateAllServiceUrls window tenant domain
    = generateAllServiceUrls window' tenant domain ∧
    processExternalLink window link tenant domain
    = processExternalLink window' link tenant domain ∧
    processExternalLinks window externalLinks tenant domain h
    = processExternalLinks window' externalLinks tenant domain h.
Proof.
  intros window window' serviceName tenant domain link externalLinks h Hd.
  assert (∀ x, or_else domain x = domain) as Hor
    by (intros x; unfold or_else; by rewrite Hd).
  assert (∀ v, processExternalLink window v tenant domain
               = processExternalLink window' v tenant domain) as Hlink.
  { intros v. unfold processExternalLink. by rewrite !Hor. }
  split; [|split; [|split]].
  - unfold generateServiceUrl. by rewrite !Hor.
  - rewrite !generateAllServiceUrls_spec. unfold entry_value, target_domain.
    by rewrite !Hor.
  - apply Hlink.
  - unfold processExternalLinks.
    destruct (_ || _); [done|]. destruct externalLinks as [|l|]; try done.
    destruct (h !! l) as [[|elems]|]; try done.
    rewrite (Array_map_ext _ (processExternalLinks_callback window' tenant domain));
      [done|].
    intros e h'. unfold processExternalLinks_callback.
    destruct (Object_assign_fresh e h') as [h1 [target|err]]; [|done].
    destruct (get_link h1 e) as [v|err]; [|done]. by rewrite Hlink.
Qed.

Lemma truthy_domain_ignores_hostname_witness :
  generateServiceUrl {| location_hostname := "a.example.org" |}
    (JsString "vault") (JsString "acme") (JsString "example.com")
  = generateServiceUrl {| location_hostname := "localhost" |}
      (JsString "vault") (JsString "acme") (JsString "example.com") ∧
  generateAllServiceUrls {| location_hostname := "a.example.org" |}
    (JsString "acme") (JsString "example.com")
  = generateAllServiceUrls {| location_hostname := "localhost" |}
      (JsString "acme") (JsString "example.com") ∧
  processExternalLink {| location_hostname := "a.example.org" |}
    (JsString "${DOMAIN}") (JsString "acme") (JsString "example.com")
  = processExternalLink {| location_hostname := "localhost" |}
      (JsString "${DOMAIN}") (JsString "acme") (JsString "example.com") ∧
  processExternalLinks {| location_hostname := "a.example.org" |}
    (JsRef 1%positive) (JsString "acme") (JsString "example.com")
    single_link_heap
  = processExternalLinks {| location_hostname := "localhost" |}
      (JsRef 1%positive) (JsString "acme") (JsString "example.com")
      single_link_heap.
Proof.
  apply truthy_domain_ignores_hostname. reflexivity.
Defined.

(** X15: [processExternalLinks] never changes a cell of the heap it is
    given, whatever its arguments and whether it returns or throws. *)
Theorem processExternalLinks_never_mutates :
  ∀ (window : Window) (externalLinks : JsValue) (tenant domain : JsPrim)
    (h h' : Heap) (r : Completion JsValue),
    processExternalLinks window externalLinks tenant domain h = (h', r) →
    ∀ l cell, h !! l = Some cell → h' !! l = Some cell.
Proof.
  intros window externalLinks tenant domain h h' r Hrun l cell Hl.
  unfold processExternalLinks in Hrun.
  destruct (_ || _); [by injection Hrun as <- _|].
  destruct externalLinks as [|a|]; try by injection Hrun as <- _.
  destruct (h !! a) as [[|elems]|]; try by injection Hrun as <- _.
  set (a' := fresh (dom h)) in *. set (h0 := <[a' := HArray []]> h) in *.
  assert (h ⊆ h0) as Hsub0 by apply insert_subseteq, fresh_lookup.
  destruct (Array_map _ elems h0) as [h1 r1] eqn:Hmap.
  assert (h0 ⊆ h1) as Hsub1.
  { eapply Array_map_extends; [|exact Hmap].
    intros e ha hb r'. apply callback_extends. }
  pose proof (lookup_weaken _ _ _ _ (lookup_weaken _ _ _ _ Hl Hsub0) Hsub1) as Hl1.
  destruct r1 as [vs|err]; injection Hrun as <- _; [|done].
  rewrite lookup_insert_ne; [done|]. intros <-.
  pose proof (fresh_lookup h). unfold a' in Hl. congruence.
Qed.

Lemma processExternalLinks_never_mutates_witness :
  (processExternalLinks example_window (JsRef 1%positive) (JsString "x")
     JsNull null_element_heap).1 !! 2%positive
  = Some (HObject {["link" := JsP (JsString "${TENANT}")]}).
Proof.
  apply (processExternalLinks_never_mutates example_window (JsRef 1%positive)
           (JsString "x") JsNull null_element_heap _
           (processExternalLinks example_window (JsRef 1%positive) (JsString "x")
              JsNull null_element_heap).2).
  - by destruct (processExternalLinks _ _ _ _ _).
  - reflexivity.
Defined.

(** X16: when the array holds [null], [undefined] or a record whose [link]
    is a truthy number or boolean, after records it can copy, and the tenant
    is truthy, [processExternalLinks] throws. *)
Theorem processExternalLinks_throws_on_bad_element :
  ∀ (window : Window) (h : Heap) (a : loc) (records rest : list JsValue)
    (bad : JsValue) (tenant domain : JsPrim),
    h !! a = Some (HArray (records ++ bad :: rest)) →
    ToBooleanPrim tenant = true →
    Forall (loose_record h) records →
    throwing_element h bad →
    ∃ h' err,
      processExternalLinks window (JsRef a) tenant domain h = (h', Throw err).
Proof.
  intros window h a records rest bad tenant domain Ha Ht Hrec Hbad.
  set (a' := fresh (dom h)). set (h0 := <[a' := HArray []]> h).
  assert (h ⊆ h0) as Hsub0 by apply insert_subseteq, fresh_lookup.
  destruct (Array_map_loose_records window tenant domain h records Hrec h0 Hsub0)
    as (h1 & vs & Hmap & Hsub1 & _).
  destruct (callback_throws window tenant domain h h1 bad Ht) as (h2 & err & Hcb);
    [by trans h0|done|].
  exists h2, err. unfold processExternalLinks. cbn [isArray].
  rewrite Ha, Ht. cbn [negb orb]. fold a'. fold h0.
  rewrite Array_map_app, Hmap. cbn [Array_map]. by rewrite Hcb.
Qed.

Lemma processExternalLinks_throws_on_bad_element_witness :
  ∃ h' err,
    processExternalLinks example_window (JsRef 1%positive) (JsString "x")
      (JsString "d") null_element_heap = (h', Throw err).
Proof.
  apply (processExternalLinks_throws_on_bad_element example_window
           null_element_heap 1%positive [JsRef 2%positive] [] (JsP JsNull)).
  - reflexivity.
  - reflexivity.
  - repeat constructor. exists 2%positive, {["link" := JsP (JsString "${TENANT}")]}.
    split; [reflexivity|]. split; [reflexivity|]. right.
    exists (JsString "${TENANT}"). split; [reflexivity|]. right. by eexists.
  - by left.
Defined.

(** X17: the copies made by [processExternalLinks] are pairwise distinct new
    objects, also when one record occurs several times in the input; none of
    them is the new array. *)
Theorem processExternalLinks_distinct_copies :
  ∀ (window : Window) (h : Heap) (a : loc) (elems : list JsValue)
    (tenant domain : JsPrim),
    h !! a = Some (HArray elems) → ToBooleanPrim tenant = true →
    Forall (loose_record h) elems →
    ∃ (h' : Heap) (a' : loc) (elems' : list JsValue),
      processExternalLinks window (JsRef a) tenant domain h
      = (h', Normal (JsRef a')) ∧
      h' !! a' = Some (HArray elems') ∧
      NoDup elems' ∧
      ∀ v, v ∈ elems' → ∃ l', v = JsRef l' ∧ l' ≠ a' ∧ l' ∉ dom h.
Proof.
  intros window h a elems tenant domain Ha Ht Hrec.
  destruct (processExternalLinks_loose_records window tenant domain h a elems
              Ha Ht Hrec) as (h' & a' & elems' & ? & ? & ? & ? & ? & ?).
  by exists h', a', elems'.
Qed.

Lemma processExternalLinks_distinct_copies_witness :
  ∃ (h' : Heap) (a' : loc) (elems' : list JsValue),
    processExternalLinks example_window (JsRef 1%positive) (JsString "x")
      JsNull shared_record_heap
    = (h', Normal (JsRef a')) ∧
    h' !! a' = Some (HArray elems') ∧
    NoDup elems' ∧
    ∀ v, v ∈ elems' → ∃ l', v = JsRef l' ∧ l' ≠ a' ∧ l' ∉ dom shared_record_heap.
Proof.
  apply (processExternalLinks_distinct_copies example_window shared_record_heap
           1%positive [JsRef 2%positive; JsRef 2%positive]).
  - reflexivity.
  - reflexivity.
  - repeat constructor;
      (exists 2%positive, {["text" := JsP (JsString "Docs")]};
       split; [reflexivity|]; split; [reflexivity|]; by left).
Defined.


